(** * p7mextractor: the conversion core of [p7mextractor.py]

    The development embeds the part of the application that decides what
    is queued, where an output goes and how a run over the queue proceeds:
    [process_added_items], [add_file_to_queue], [on_clear_clicked],
    [update_ui_state], [check_openssl], [on_convert_clicked],
    [run_conversion_thread] and [finish_conversion].

    Python's [str] is a [string], and every path is a [str]; the
    translation function [_] is the identity (the fallback installed by
    the program), so labels appear by their message ids.  The worker
    thread and the GLib main loop are two agents that share the idle
    queue, which the main loop serves oldest first; their interleaving is
    a schedule.  No handler adds to the queue or clears it while a run is
    in progress. *)

From Stdlib Require Import List String Ascii Bool Arith ZArith QArith Lia.
From Stdlib Require Import DecimalString.
Import ListNotations.

Set Warnings "-register-all".

Local Open Scope string_scope.
Local Open Scope list_scope.
Local Open Scope nat_scope.

(** ** Python string operations used by the program *)

Module Str.

(** [s[n:]] for [0 <= n]. *)
Fixpoint drop (n : nat) (s : string) : string :=
  match n, s with
  | O, _ => s
  | S _, EmptyString => EmptyString
  | S n', String _ s' => drop n' s'
  end.

(** [s[:n]] for [0 <= n]. *)
Fixpoint take (n : nat) (s : string) : string :=
  match n, s with
  | O, _ => EmptyString
  | S _, EmptyString => EmptyString
  | S n', String a s' => String a (take n' s')
  end.

(** [s.rfind(c)]: the index of the last occurrence of the character [c];
    [None] stands for Python's [-1]. *)
Fixpoint rfind (c : ascii) (s : string) : option nat :=
  match s with
  | EmptyString => None
  | String a s' =>
      match rfind c s' with
      | Some i => Some (S i)
      | None => if Ascii.eqb a c then Some 0 else None
      end
  end.

(** [s.rfind(c) + 1], which is [0] when [c] does not occur. *)
Definition rfind_succ (c : ascii) (s : string) : nat :=
  match rfind c s with
  | Some i => S i
  | None => 0
  end.

(** [s.startswith(t)]. *)
Definition startswith (t s : string) : bool := String.prefix t s.

(** [s.endswith(t)]: [len(s) >= len(t) and s[len(s)-len(t):] == t]. *)
Definition endswith (t s : string) : bool :=
  (String.length t <=? String.length s)
  && String.eqb (drop (String.length s - String.length t) s) t.

(** [s.rstrip(c)] for a single character [c]. *)
Fixpoint rstrip (c : ascii) (s : string) : string :=
  match s with
  | EmptyString => EmptyString
  | String a s' =>
      match rstrip c s' with
      | EmptyString => if Ascii.eqb a c then EmptyString else String a EmptyString
      | r => String a r
      end
  end.

(** [s == c * len(s)]: every character of [s] is [c]. *)
Fixpoint all_char (c : ascii) (s : string) : bool :=
  match s with
  | EmptyString => true
  | String a s' => Ascii.eqb a c && all_char c s'
  end.

(** One character of [str.lower()]: the letters [A]..[Z] move to
    [a]..[z]; every other character of the alphabet is kept. *)
Definition lower_char (a : ascii) : ascii :=
  let n := nat_of_ascii a in
  if (65 <=? n) && (n <=? 90) then ascii_of_nat (n + 32) else a.

(** [s.lower()]. *)
Fixpoint lower (s : string) : string :=
  match s with
  | EmptyString => EmptyString
  | String a s' => String (lower_char a) (lower s')
  end.

(** [str(n)] for a non-negative integer. *)
Definition str (n : nat) : string :=
  NilEmpty.string_of_uint (Nat.to_uint n).

End Str.

(** ** [os.path] on a POSIX system ([posixpath]) *)

Module PosixPath.

Definition sep : ascii := "/"%char.
Definition extsep : ascii := "."%char.

(** [basename(p)]: [i = p.rfind(sep) + 1; return p[i:]]. *)
Definition basename (p : string) : string :=
  Str.drop (Str.rfind_succ sep p) p.

(** [dirname(p)]: [head = p[:i]]; trailing separators are stripped
    unless [head] consists of separators only. *)
Definition dirname (p : string) : string :=
  let head := Str.take (Str.rfind_succ sep p) p in
  if negb (String.eqb head "") && negb (Str.all_char sep head)
  then Str.rstrip sep head
  else head.

(** The loop of [genericpath._splitext] that skips leading dots: is
    there an index in [filenameIndex, filenameIndex + n) whose character
    is not a dot? *)
Fixpoint has_non_dot (p : string) (filenameIndex n : nat) : bool :=
  match n with
  | O => false
  | S n' =>
      match String.get filenameIndex p with
      | Some a =>
          if Ascii.eqb a extsep
          then has_non_dot p (S filenameIndex) n'
          else true
      | None => true
      end
  end.

(** [splitext(p)]: split at the last dot if it comes after the last
    separator and is not one of the leading dots of the file name. *)
Definition splitext (p : string) : string * string :=
  match Str.rfind extsep p with
  | None => (p, "")
  | Some dotIndex =>
      let filenameIndex := Str.rfind_succ sep p in
      if (filenameIndex <=? dotIndex)
         && has_non_dot p filenameIndex (dotIndex - filenameIndex)
      then (Str.take dotIndex p, Str.drop dotIndex p)
      else (p, "")
  end.

(** [join(a, b)] with one component [b]. *)
Definition join (a b : string) : string :=
  if Str.startswith "/" b then b
  else if String.eqb a "" || Str.endswith "/" a then a ++ b
  else a ++ "/" ++ b.

End PosixPath.

(** ** Data model *)

(** The four values the [status] property takes: [_("Pending")],
    [_("Processing...")], [_("Done")] and [_("Error")]. *)
Inductive Status : Type := Pending | Processing | Done | Error.

Definition label (s : Status) : string :=
  match s with
  | Pending => "Pending"
  | Processing => "Processing..."
  | Done => "Done"
  | Error => "Error"
  end.

Definition terminal (s : Status) : bool :=
  match s with
  | Done | Error => true
  | Pending | Processing => false
  end.

(** [class FileItem(GObject.Object)], in the order of its constructor. *)
Record FileItem : Type := mkFileItem {
  id : string;
  filename : string;
  path : string;
  full_path : string;
  status : Status
}.

(** The fields and widgets of [P7MExtractorApp] the core reads or writes:
    [btn_convert] is the sensitivity of the Extract button and
    [progress_bar] the fraction the bar shows. *)
Record App : Type := mkApp {
  file_queue : list string;
  custom_export_path : option string;
  model : list FileItem;
  lbl_count : string;
  lbl_status : string;
  btn_convert : bool;
  progress_bar : Q
}.

Definition set_queue (q : list string) (m : list FileItem) (a : App) : App :=
  mkApp q (custom_export_path a) m (lbl_count a) (lbl_status a)
        (btn_convert a) (progress_bar a).

Definition set_model (m : list FileItem) (a : App) : App :=
  set_queue (file_queue a) m a.

Definition set_lbl_status (s : string) (a : App) : App :=
  mkApp (file_queue a) (custom_export_path a) (model a) (lbl_count a) s
        (btn_convert a) (progress_bar a).

Definition set_btn_convert (b : bool) (a : App) : App :=
  mkApp (file_queue a) (custom_export_path a) (model a) (lbl_count a)
        (lbl_status a) b (progress_bar a).

Definition set_fraction (q : Q) (a : App) : App :=
  mkApp (file_queue a) (custom_export_path a) (model a) (lbl_count a)
        (lbl_status a) (btn_convert a) q.

Definition set_custom_export_path (d : option string) (a : App) : App :=
  mkApp (file_queue a) d (model a) (lbl_count a) (lbl_status a)
        (btn_convert a) (progress_bar a).

(** ** The environment: file system, [PATH] and the external tool *)

(** What a path names.  [File] is what [os.path.isfile] accepts, [Dir] a
    directory with the entries [os.scandir] lists, [DirLink] a symbolic
    link to a directory met during a walk (listed with the directories,
    not descended into), [Special] anything else (socket, fifo, dangling
    link). *)
Inductive Node : Type :=
| File
| Special
| DirLink
| Dir (entries : list (string * Node)).

(** What [subprocess.run] does: it returns a completed process, or raises. *)
Inductive Outcome : Type :=
| Returned (returncode : Z) (stderr : string)
| Raised (e : string).

Record Env : Type := mkEnv {
  (** what an input path names, following links *)
  stat : string -> option Node;
  (** [shutil.which("openssl")] *)
  which_openssl : option string;
  (** the outcome of spawning [argv], given the number of earlier runs *)
  spawn : nat -> list string -> Outcome;
  (** whether a directory exists and can be written to; the program never
      asks *)
  writable_dir : string -> bool
}.

(** ** The queue *)

(** [update_ui_state]. *)
Definition update_ui_state (a : App) : App :=
  let count := List.length (model a) in
  mkApp (file_queue a) (custom_export_path a) (model a)
        (Str.str count ++ " files ready") (lbl_status a)
        (0 <? count) (progress_bar a).

(** [path in self.file_queue]. *)
Definition in_queue (p : string) (q : list string) : bool :=
  existsb (String.eqb p) q.

(** [add_file_to_queue]. *)
Definition add_file_to_queue (p : string) (a : App) : App :=
  if in_queue p (file_queue a) then a
  else
    let q := file_queue a ++ [p] in
    let item := mkFileItem (Str.str (List.length q)) (PosixPath.basename p)
                           (PosixPath.dirname p) p Pending in
    update_ui_state (set_queue q (model a ++ [item]) a).

(** [on_clear_clicked]. *)
Definition on_clear_clicked (a : App) : App :=
  update_ui_state (set_queue [] [] a).

(** The widgets as [do_activate] builds them, before [check_openssl]. *)
Definition built : App :=
  mkApp [] None [] "No files added" "Ready" false 0%Q.

(** [check_openssl]. *)
Definition check_openssl (e : Env) (a : App) : App :=
  match which_openssl e with
  | Some _ => a
  | None => set_btn_convert false (set_lbl_status "Error: OpenSSL not found" a)
  end.

(** [do_activate], as far as the core is concerned. *)
Definition do_activate (e : Env) : App := check_openssl e built.

(** A sequence of [add_file_to_queue] calls. *)
Definition add_all (paths : list string) (a : App) : App :=
  fold_left (fun a p => add_file_to_queue p a) paths a.

(** The rows a queue [q] shows when nothing has been converted yet:
    row [k] (from 0) has id [str (k + 1)] and status [Pending]. *)
Definition pending_row (k : nat) (p : string) : FileItem :=
  mkFileItem (Str.str (S k)) (PosixPath.basename p) (PosixPath.dirname p) p Pending.

Fixpoint pending_rows_from (k : nat) (q : list string) : list FileItem :=
  match q with
  | [] => []
  | p :: q' => pending_row k p :: pending_rows_from (S k) q'
  end.

(** The distinct elements of a list in the order of their first
    occurrence. *)
Fixpoint first_seen (l : list string) : list string :=
  match l with
  | [] => []
  | x :: l' => x :: remove string_dec x (first_seen l')
  end.

(** ** Discovery *)

Definition isfile (e : Env) (p : string) : bool :=
  match stat e p with
  | Some File => true
  | _ => false
  end.

Definition isdir (e : Env) (p : string) : bool :=
  match stat e p with
  | Some (Dir _) => true
  | _ => false
  end.

(** [entry.is_dir()] inside [os.walk]: links are followed. *)
Definition is_dir_entry (n : Node) : bool :=
  match n with
  | Dir _ | DirLink => true
  | File | Special => false
  end.

Definition dirs_of (es : list (string * Node)) : list string :=
  map fst (filter (fun e => is_dir_entry (snd e)) es).

Definition nondirs_of (es : list (string * Node)) : list string :=
  map fst (filter (fun e => negb (is_dir_entry (snd e))) es).

(** [os.walk(top)], top-down, not following links: the triple of [top],
    then the walks of its real sub-directories in listing order. *)
Fixpoint walk (top : string) (n : Node) : list (string * list string * list string) :=
  match n with
  | Dir es =>
      (top, dirs_of es, nondirs_of es)
      :: (fix sub (l : list (string * Node)) :=
            match l with
            | [] => []
            | (name, child) :: l' => walk (PosixPath.join top name) child ++ sub l'
            end) es
  | File | Special | DirLink => []
  end.

Definition os_walk (e : Env) (p : string) : list (string * list string * list string) :=
  match stat e p with
  | Some n => walk p n
  | None => []
  end.

(** [s.lower().endswith('.p7m')]. *)
Definition is_p7m (s : string) : bool := Str.endswith ".p7m" (Str.lower s).

(** The body of the innermost loop of [process_added_items]: one call of
    [add_file_to_queue] and [added += 1]. *)
Definition add_counted (p : string) (st : App * nat) : App * nat :=
  (add_file_to_queue p (fst st), S (snd st)).

(** The body of [for name in filenames]. *)
Definition scan_names (root : string) (filenames : list string) (st : App * nat)
  : App * nat :=
  fold_left
    (fun st name =>
       if is_p7m name then add_counted (PosixPath.join root name) st else st)
    filenames st.

(** The body of [for path in paths]. *)
Definition scan_path (e : Env) (st : App * nat) (p : string) : App * nat :=
  if isfile e p && is_p7m p then add_counted p st
  else if isdir e p then
    fold_left (fun st t => scan_names (fst (fst t)) (snd t) st) (os_walk e p) st
  else st.

(** [process_added_items]. *)
Definition process_added_items (e : Env) (paths : list string) (a : App) : App :=
  let st := fold_left (scan_path e) paths (a, 0) in
  if 0 <? snd st
  then set_lbl_status ("Added " ++ Str.str (snd st) ++ " files") (fst st)
  else fst st.

(** The candidates of one input path: the arguments [process_added_items]
    passes to [add_file_to_queue], in order. *)
Definition candidates (e : Env) (p : string) : list string :=
  if isfile e p && is_p7m p then [p]
  else if isdir e p then
    flat_map (fun t => map (PosixPath.join (fst (fst t))) (filter is_p7m (snd t)))
             (os_walk e p)
  else [].

Definition discover (e : Env) (paths : list string) : list string :=
  flat_map (candidates e) paths.

(** The walks of the entries of a directory reached as [top], one
    after the other. *)
Definition walk_entries (top : string) (es : list (string * Node))
  : list (string * list string * list string) :=
  flat_map (fun e => walk (PosixPath.join top (fst e)) (snd e)) es.

(** [Within top n name child p]: the directory [n], reached as [top],
    contains at some depth, below real directories only, an entry [name]
    that is not a directory; [child] is what the entry is and [p] the path
    [os.path.join] builds for it.  A regular file is an entry with
    [child = File]. *)
Inductive Within : string -> Node -> string -> Node -> string -> Prop :=
| Within_here top es name child :
    In (name, child) es ->
    is_dir_entry child = false ->
    Within top (Dir es) name child (PosixPath.join top name)
| Within_below top es d sub name child p :
    In (d, Dir sub) es ->
    Within (PosixPath.join top d) (Dir sub) name child p ->
    Within top (Dir es) name child p.

(** ** One conversion: output path, command and verdict *)

(** The argument list handed to [subprocess.run]: its head, which is
    [None] when [shutil.which] found nothing, and the remaining strings. *)
Record Cmd : Type := mkCmd {
  program : option string;
  arguments : list string
}.

(** [base = os.path.splitext(item.filename)[0] + ".pdf"]. *)
Definition base (it : FileItem) : string :=
  fst (PosixPath.splitext (filename it)) ++ ".pdf".

(** [dest = self.custom_export_path if self.custom_export_path else item.path]:
    [None] and the empty string are both false. *)
Definition dest (a : App) (it : FileItem) : string :=
  match custom_export_path a with
  | Some d => if String.eqb d "" then path it else d
  | None => path it
  end.

(** [out_path = os.path.join(dest, base)]. *)
Definition out_path (a : App) (it : FileItem) : string :=
  PosixPath.join (dest a it) (base it).

(** [cmd = [openssl, "smime", "-verify", ..., "-out", out_path]]. *)
Definition cmd (openssl : option string) (a : App) (it : FileItem) : Cmd :=
  mkCmd openssl
        ["smime"; "-verify"; "-noverify"; "-binary"; "-inform"; "DER";
         "-in"; full_path it; "-out"; out_path a it].

(** [subprocess.run(cmd, ...)] as the [t]-th run: with no program name it
    raises before anything is spawned. *)
Definition subprocess_run (e : Env) (t : nat) (c : Cmd) : Outcome :=
  match program c with
  | None => Raised "expected str, bytes or os.PathLike object, not NoneType"
  | Some x => spawn e t (x :: arguments c)
  end.

(** The [try] block: [success = (res.returncode == 0)], and [False] in
    the handler. *)
Definition success (o : Outcome) : bool :=
  match o with
  | Returned rc _ => Z.eqb rc 0
  | Raised _ => false
  end.

(** What the [try] block writes to the log: the handler's
    [logging.error(f"Conversion error: {e}")], nothing otherwise. *)
Definition logged (o : Outcome) : list string :=
  match o with
  | Returned _ _ => []
  | Raised e => [("Conversion error: " ++ e)%string]
  end.

(** [status = _("Done") if success else _("Error")]. *)
Definition verdict (ok : bool) : Status := if ok then Done else Error.

(** [(i + 1) / count], with [k] for [i + 1]. *)
Definition fraction (k count : nat) : Q := Z.of_nat k # Pos.of_nat count.

(** ** The worker thread and the main loop *)

(** The callbacks handed to [GLib.idle_add].  The two lambdas read the
    worker's variable [item] when they run, not when they are created;
    the status of the second one is bound by its default argument. *)
Inductive Callback : Type :=
| SetItemStatus (s : Status)
| SetFraction (q : Q)
| FinishConversion.

(** Where the worker stands in [run_conversion_thread]. *)
Inductive Pc : Type :=
| AtFetch (i : nat)               (* [for i in range(count)], line 335 *)
| AtProcessing (i : nat)          (* line 336 *)
| AtRun (i : nat)                 (* lines 338 to 351 *)
| AtStatus (i : nat) (s : Status) (* line 352 *)
| AtFraction (i : nat)            (* line 353 *)
| AtFinish                        (* line 355 *)
| Exited
| Crashed.

(** A run in progress.  [self] is the application object both threads
    work on.  [openssl], [count] and [item] are the worker's variables of
    those names; [item] is the index of the row it refers to.  [idle] is
    the queue of callbacks not dispatched yet, oldest first.  [dispatched],
    [calls] and [log] record what has happened: the callbacks the main
    loop has run, the commands given to [subprocess.run] and the lines
    written to the log. *)
Record Run : Type := mkRun {
  self : App;
  openssl : option string;
  count : nat;
  item : option nat;
  pc : Pc;
  idle : list Callback;
  dispatched : list Callback;
  calls : list Cmd;
  log : list string
}.

Definition set_self (a : App) (r : Run) : Run :=
  mkRun a (openssl r) (count r) (item r) (pc r) (idle r) (dispatched r)
        (calls r) (log r).

Definition set_item (k : option nat) (r : Run) : Run :=
  mkRun (self r) (openssl r) (count r) k (pc r) (idle r) (dispatched r)
        (calls r) (log r).

Definition set_pc (p : Pc) (r : Run) : Run :=
  mkRun (self r) (openssl r) (count r) (item r) p (idle r) (dispatched r)
        (calls r) (log r).

(** [GLib.idle_add(cb)]. *)
Definition idle_add (cb : Callback) (r : Run) : Run :=
  mkRun (self r) (openssl r) (count r) (item r) (pc r) (idle r ++ [cb])
        (dispatched r) (calls r) (log r).

(** The main loop takes [cb] off the idle queue, leaving [rest]. *)
Definition take_idle (cb : Callback) (rest : list Callback) (r : Run) : Run :=
  mkRun (self r) (openssl r) (count r) (item r) (pc r) rest
        (dispatched r ++ [cb]) (calls r) (log r).

Definition record_call (c : Cmd) (lines : list string) (r : Run) : Run :=
  mkRun (self r) (openssl r) (count r) (item r) (pc r) (idle r)
        (dispatched r) (calls r ++ [c]) (log r ++ lines).

(** [row.set_property("status", s)] on the row of index [k]; an index
    outside the store names no row and nothing changes. *)
Fixpoint set_status_at (k : nat) (s : Status) (m : list FileItem) : list FileItem :=
  match m, k with
  | [], _ => []
  | it :: m', O =>
      mkFileItem (id it) (filename it) (path it) (full_path it) s :: m'
  | it :: m', S k' => it :: set_status_at k' s m'
  end.

(** The row the worker's [item] refers to. *)
Definition item_row (r : Run) : option FileItem :=
  match item r with
  | Some k => nth_error (model (self r)) k
  | None => None
  end.

(** One statement of [run_conversion_thread]. *)
Definition worker_step (e : Env) (r : Run) : Run :=
  match pc r with
  | AtFetch i =>
      if i <? count r
      then set_pc (AtProcessing i) (set_item (Some i) r)
      else set_pc AtFinish r
  | AtProcessing i =>
      set_pc (AtRun i) (idle_add (SetItemStatus Processing) r)
  | AtRun i =>
      match item_row r with
      | None => set_pc Crashed r
      | Some it =>
          let c := cmd (openssl r) (self r) it in
          let o := subprocess_run e (List.length (calls r)) c in
          set_pc (AtStatus i (verdict (success o))) (record_call c (logged o) r)
      end
  | AtStatus i s =>
      set_pc (AtFraction i) (idle_add (SetItemStatus s) r)
  | AtFraction i =>
      set_pc (AtFetch (S i)) (idle_add (SetFraction (fraction (S i) (count r))) r)
  | AtFinish =>
      set_pc Exited (idle_add FinishConversion r)
  | Exited | Crashed => r
  end.

(** [finish_conversion]. *)
Definition finish_conversion (a : App) : App :=
  set_btn_convert true (set_lbl_status "Extraction Complete" a).

(** What a callback does when the main loop runs it. *)
Definition dispatch (cb : Callback) (r : Run) : Run :=
  match cb with
  | SetItemStatus s =>
      match item r with
      | Some k => set_self (set_model (set_status_at k s (model (self r))) (self r)) r
      | None => r
      end
  | SetFraction q => set_self (set_fraction q (self r)) r
  | FinishConversion => set_self (finish_conversion (self r)) r
  end.

(** The main loop runs the oldest callback of the idle queue, if any. *)
Definition main_step (r : Run) : Run :=
  match idle r with
  | [] => r
  | cb :: rest => dispatch cb (take_idle cb rest r)
  end.

(** Whose turn it is. *)
Inductive Turn : Type := WorkerTurn | MainTurn.

Definition step (e : Env) (r : Run) (t : Turn) : Run :=
  match t with
  | WorkerTurn => worker_step e r
  | MainTurn => main_step r
  end.

Definition exec (e : Env) (sched : list Turn) (r : Run) : Run :=
  fold_left (step e) sched r.

(** The thread [on_convert_clicked] starts, about to enter the loop:
    [openssl] and [count] are read, nothing else has happened. *)
Definition start_thread (e : Env) (a : App) : Run :=
  mkRun a (which_openssl e) (List.length (model a)) None (AtFetch 0)
        [] [] [] [].

(** [on_convert_clicked]. *)
Definition on_convert_clicked (e : Env) (a : App) : Run :=
  start_thread e (set_fraction 0%Q (set_btn_convert false a)).

(** A click on the Extract button reaches its handler only while the
    button is sensitive. *)
Definition click_convert (e : Env) (a : App) : option Run :=
  if btn_convert a then Some (on_convert_clicked e a) else None.

(** ** Observations of a run *)

Definition statuses (r : Run) : list Status := map status (model (self r)).

(** The fractions the progress bar has been given, oldest first. *)
Definition fractions_of (cbs : list Callback) : list Q :=
  flat_map (fun cb => match cb with SetFraction q => [q] | _ => [] end) cbs.

Definition shown (r : Run) : list Q := fractions_of (dispatched r).

Definition is_finish (cb : Callback) : bool :=
  match cb with
  | FinishConversion => true
  | _ => false
  end.

(** [finish_conversion] has run: the run is over for the user. *)
Definition completed (r : Run) : bool := existsb is_finish (dispatched r).

(** Everything the worker has handed to [GLib.idle_add] so far. *)
Definition emitted (r : Run) : list Callback := dispatched r ++ idle r.

(** Two schedules for a queue of [n] rows.  In [prompt n] the main loop
    gets a turn after every statement of the worker; in [late n] it gets
    its turns only when the worker has finished. *)
Definition prompt (n : nat) : list Turn :=
  List.concat (repeat [WorkerTurn; MainTurn] (5 * n + 2)).

Definition late (n : nat) : list Turn :=
  repeat WorkerTurn (5 * n + 2) ++ repeat MainTurn (3 * n + 1).

(** The fractions a run over [n] rows reports after row [i]: [k / n] for
    [k = i + 1, ..., n]. *)
Definition fractions_from (i n : nat) : list Q :=
  map (fun k => fraction (S k) n) (seq i (n - i)).

(** What the worker does for the row [it] of index [k], read off the
    state [a] the run starts from: the command, its outcome and the three
    callbacks. *)
Definition outcome_at (e : Env) (a : App) (k : nat) (it : FileItem) : Outcome :=
  subprocess_run e k (cmd (which_openssl e) a it).

Definition verdict_at (e : Env) (a : App) (k : nat) (it : FileItem) : Status :=
  verdict (success (outcome_at e a k it)).

Definition item_script (e : Env) (a : App) (k : nat) (it : FileItem)
  : list Callback :=
  [SetItemStatus Processing;
   SetItemStatus (verdict_at e a k it);
   SetFraction (fraction (S k) (List.length (model a)))].

Fixpoint scripts_from (e : Env) (a : App) (k : nat) (rows : list FileItem)
  : list Callback :=
  match rows with
  | [] => []
  | it :: rows' => item_script e a k it ++ scripts_from e a (S k) rows'
  end.

Fixpoint verdicts_from (e : Env) (a : App) (k : nat) (rows : list FileItem)
  : list Status :=
  match rows with
  | [] => []
  | it :: rows' => verdict_at e a k it :: verdicts_from e a (S k) rows'
  end.

(** A row with its status forgotten. *)
Definition neutral (it : FileItem) : FileItem :=
  mkFileItem (id it) (filename it) (path it) (full_path it) Pending.

(** ** What a run does, read off the state it starts from *)

(** The commands of a run, one per row in queue order. *)
Definition rows_calls (e : Env) (a : App) : list Cmd :=
  map (cmd (which_openssl e) a) (model a).



(** The callbacks of a run in the order the worker queues them. *)
Definition script (e : Env) (a : App) : list Callback :=
  scripts_from e a 0 (model a) ++ [FinishConversion].

(** How many callbacks the worker has queued, and how many commands it
    has run, when it stands at a given statement of a run over [n] rows;
    and how many statements it still has to execute. *)
Definition emitted_count (n : nat) (p : Pc) : nat :=
  match p with
  | AtFetch i | AtProcessing i => 3 * i
  | AtRun i | AtStatus i _ => 3 * i + 1
  | AtFraction i => 3 * i + 2
  | AtFinish => 3 * n
  | Exited | Crashed => 3 * n + 1
  end.

Definition called_count (n : nat) (p : Pc) : nat :=
  match p with
  | AtFetch i | AtProcessing i | AtRun i => i
  | AtStatus i _ | AtFraction i => S i
  | AtFinish | Exited | Crashed => n
  end.

Definition steps_left (n : nat) (p : Pc) : nat :=
  match p with
  | AtFetch i => 5 * (n - i) + 2
  | AtProcessing i => 5 * (n - i) + 1
  | AtRun i => 5 * (n - i)
  | AtStatus i _ => 5 * (n - i) - 1
  | AtFraction i => 5 * (n - i) - 2
  | AtFinish => 1
  | Exited | Crashed => 0
  end.

(** The worker's variables agree with the statement it stands at. *)
Definition pc_ok (e : Env) (a0 : App) (r : Run) : Prop :=
  match pc r with
  | AtFetch i => i <= List.length (model a0)
  | AtProcessing i | AtRun i | AtFraction i =>
      i < List.length (model a0) /\ item r = Some i
  | AtStatus i s =>
      i < List.length (model a0) /\ item r = Some i /\
      exists it, nth_error (model a0) i = Some it /\ s = verdict_at e a0 i it
  | AtFinish | Exited => True
  | Crashed => False
  end.

(** What holds of a run started on [a0] in environment [e], whatever the
    schedule: only the statuses and the widgets of [self] change; the
    commands run and the callbacks queued so far are initial segments of
    [rows_calls] and [script]; the progress bar shows the last fraction
    it was given. *)
Record Inv (e : Env) (a0 : App) (r : Run) : Prop := mkInv {
  inv_openssl : openssl r = which_openssl e;
  inv_count : count r = List.length (model a0);
  inv_export : custom_export_path (self r) = custom_export_path a0;
  inv_rows : map neutral (model (self r)) = map neutral (model a0);
  inv_pc : pc_ok e a0 r;
  inv_calls :
    calls r = firstn (called_count (List.length (model a0)) (pc r))
                     (rows_calls e a0);
  inv_emitted :
    emitted r = firstn (emitted_count (List.length (model a0)) (pc r))
                       (script e a0);
  inv_bar : progress_bar (self r) = last (shown r) (progress_bar a0)
}.

(** A list of fractions that never decreases. *)
Fixpoint nondecreasing (l : list Q) : Prop :=
  match l with
  | [] => True
  | x :: l' =>
      match l' with
      | [] => True
      | y :: _ => (x <= y)%Q /\ nondecreasing l'
      end
  end.

(** The rows once every row has received the status of its own
    outcome; [k] is the index of the first row of [rows]. *)
Fixpoint settle (e : Env) (a : App) (k : nat) (rows : list FileItem)
  : list FileItem :=
  match rows with
  | [] => []
  | it :: rows' =>
      mkFileItem (id it) (filename it) (path it) (full_path it)
                 (verdict_at e a k it)
      :: settle e a (S k) rows'
  end.

(** The rows when the first [i] of them are settled and the others are
    as they were when the run started. *)
Definition settled_to (e : Env) (a : App) (i : nat) : list FileItem :=
  firstn i (settle e a 0 (model a)) ++ skipn i (model a).

(** What the rows are under prompt dispatch when the worker stands at a
    given statement and the idle queue is empty. *)
Definition prompt_rows (e : Env) (a : App) (p : Pc) : list FileItem :=
  match p with
  | AtFetch i | AtProcessing i => settled_to e a i
  | AtRun i | AtStatus i _ => set_status_at i Processing (settled_to e a i)
  | AtFraction i => settled_to e a (S i)
  | AtFinish | Exited | Crashed => settle e a 0 (model a)
  end.

(** One statement of the worker followed by one turn of the main loop. *)
Definition prompt_turn (e : Env) (r : Run) : Run :=
  main_step (worker_step e r).

(** The states of the application: after start-up, after any of the
    handlers that change the queue or the destination, and at any point
    of a run started by a click on the Extract button. *)
Inductive Reachable (e : Env) : App -> Prop :=
| Reach_activate : Reachable e (do_activate e)
| Reach_add p a :
    Reachable e a -> Reachable e (add_file_to_queue p a)
| Reach_scan paths a :
    Reachable e a -> Reachable e (process_added_items e paths a)
| Reach_clear a :
    Reachable e a -> Reachable e (on_clear_clicked a)
| Reach_dest d a :
    Reachable e a -> Reachable e (set_custom_export_path d a)
| Reach_run sched a r :
    Reachable e a -> click_convert e a = Some r ->
    Reachable e (self (exec e sched r)).

(** ** The other handlers that fill the queue *)

(** [on_open_multiple_finish]: the paths chosen in the file dialog are
    added one by one; [None] is the dialog ending with [GLib.Error]. *)
Definition on_open_multiple_finish (result : option (list string)) (a : App)
  : App :=
  match result with
  | Some paths => add_all paths a
  | None => a
  end.

(** [on_select_input_folder_finish]. *)
Definition on_select_input_folder_finish (e : Env) (result : option string)
           (a : App) : App :=
  match result with
  | Some p => process_added_items e [p] a
  | None => a
  end.

(** [on_drop], as far as the queue is concerned. *)
Definition on_drop (e : Env) (paths : list string) (a : App) : App :=
  process_added_items e paths a.

(** ** The destination panel *)

(** Python's truth value of [self.custom_export_path]. *)
Definition truthy (d : option string) : bool :=
  match d with
  | Some s => negb (String.eqb s "")
  | None => false
  end.

(** The application with the widgets of the destination panel:
    [switch_dest] is the state of the switch, [btn_pick] and
    [lbl_dest_sensitive] the sensitivity of the button and of the label,
    [lbl_dest_path] the text of the label, [dialog_open] whether the
    folder dialog is waiting for an answer. *)
Record Window : Type := mkWindow {
  core : App;
  switch_dest : bool;
  btn_pick : bool;
  lbl_dest_sensitive : bool;
  lbl_dest_path : string;
  dialog_open : bool
}.

(** The panel as [do_activate] builds it. *)
Definition opened (a : App) : Window :=
  mkWindow a false false false "Same as source file" false.

(** [on_pick_dest_clicked]: the folder dialog is shown. *)
Definition on_pick_dest_clicked (w : Window) : Window :=
  mkWindow (core w) (switch_dest w) (btn_pick w) (lbl_dest_sensitive w)
           (lbl_dest_path w) true.

(** [on_dest_switch_toggled], the handler of [notify::active]. *)
Definition on_dest_switch_toggled (w : Window) : Window :=
  let active := switch_dest w in
  if negb active then
    mkWindow (set_custom_export_path None (core w)) active active active
             "Same as source file" (dialog_open w)
  else if negb (truthy (custom_export_path (core w))) then
    on_pick_dest_clicked
      (mkWindow (core w) active active active (lbl_dest_path w) (dialog_open w))
  else
    mkWindow (core w) active active active (lbl_dest_path w) (dialog_open w).

(** [self.switch_dest.set_active(b)]: the property is notified, and the
    handler runs, only when the value changes. *)
Definition set_active (b : bool) (w : Window) : Window :=
  if Bool.eqb (switch_dest w) b then w
  else on_dest_switch_toggled
         (mkWindow (core w) b (btn_pick w) (lbl_dest_sensitive w)
                   (lbl_dest_path w) (dialog_open w)).

(** [on_select_folder_finish]: the dialog has ended, with a folder or
    ([None]) with [GLib.Error]. *)
Definition on_select_folder_finish (result : option string) (w : Window)
  : Window :=
  match result with
  | Some p =>
      set_active true
        (mkWindow (set_custom_export_path (Some p) (core w)) (switch_dest w)
                  (btn_pick w) (lbl_dest_sensitive w) p false)
  | None =>
      let w0 := mkWindow (core w) (switch_dest w) (btn_pick w)
                         (lbl_dest_sensitive w) (lbl_dest_path w) false in
      if negb (truthy (custom_export_path (core w))) then set_active false w0
      else w0
  end.

(** What can happen to the panel.  The dialog is modal: while it is open
    the switch and the button cannot be reached, and only an open dialog
    can end. *)
Inductive DestEvent : Type :=
| ToggleSwitch
| ClickPick
| FolderChosen (p : string)
| DialogCancelled.

Definition dest_step (w : Window) (ev : DestEvent) : Window :=
  match ev with
  | ToggleSwitch =>
      if dialog_open w then w else set_active (negb (switch_dest w)) w
  | ClickPick =>
      if dialog_open w || negb (btn_pick w) then w else on_pick_dest_clicked w
  | FolderChosen p =>
      if dialog_open w then on_select_folder_finish (Some p) w else w
  | DialogCancelled =>
      if dialog_open w then on_select_folder_finish None w else w
  end.

(** The folder a dialog returns has a name. *)
Definition named (ev : DestEvent) : Prop :=
  match ev with
  | FolderChosen p => p <> ""
  | _ => True
  end.

(** The panel is consistent: button and label are sensitive exactly when
    the switch is on; an open dialog means the switch is on; without a
    destination the label reads "Same as source file" and the switch is
    on only while the dialog is open; with a destination the switch is
    on and the label shows it. *)
Definition dest_ok (w : Window) : Prop :=
  btn_pick w = switch_dest w /\
  lbl_dest_sensitive w = switch_dest w /\
  (dialog_open w = true -> switch_dest w = true) /\
  match custom_export_path (core w) with
  | None =>
      lbl_dest_path w = "Same as source file" /\
      (switch_dest w = true -> dialog_open w = true)
  | Some p => p <> "" /\ lbl_dest_path w = p /\ switch_dest w = true
  end.

(** ** The choice of languages at start-up *)

(** [s.split(c)[0]]: what stands before the first [c]. *)
Fixpoint split_head (c : ascii) (s : string) : string :=
  match s with
  | EmptyString => EmptyString
  | String a s' => if Ascii.eqb a c then EmptyString else String a (split_head c s')
  end.

(** [os.environ.get('LC_ALL') or os.environ.get('LC_MESSAGES') or
    os.environ.get('LANG')]. *)
Definition lang_code (lc_all lc_messages lang : option string) : option string :=
  if truthy lc_all then lc_all
  else if truthy lc_messages then lc_messages
  else lang.

(** The list [languages] handed to [gettext.translation]. *)
Definition languages (lc_all lc_messages lang : option string) : list string :=
  match lang_code lc_all lc_messages lang with
  | Some c =>
      if negb (String.eqb c "") then
        let code := split_head "." c in
        [code; split_head "_" code; "en"]
      else ["en"]
  | None => ["en"]
  end.

(** ** Counting the turns of a schedule *)

Definition is_worker_turn (t : Turn) : bool :=
  match t with
  | WorkerTurn => true
  | MainTurn => false
  end.

Definition worker_turns_in (sched : list Turn) : nat :=
  List.length (filter is_worker_turn sched).

(** ** Environments and schedules used in the examples *)

(** [openssl] is installed and extracts every file. *)
Definition healthy : Env :=
  mkEnv (fun _ => None) (Some "/usr/bin/openssl")
        (fun _ _ => Returned 0 "") (fun _ => true).

(** [openssl] is not on the path. *)
Definition no_openssl : Env :=
  mkEnv (fun _ => None) None (fun _ _ => Returned 0 "") (fun _ => true).

(** [openssl] is installed; its first run exits with status 1, the later
    ones with 0. *)
Definition first_fails : Env :=
  mkEnv (fun _ => None) (Some "/usr/bin/openssl")
        (fun t _ => if t =? 0 then Returned 1 "Error reading S/MIME message"
                    else Returned 0 "")
        (fun _ => true).

(** [openssl] is found but may not be executed: every spawn raises. *)
Definition denied : Env :=
  mkEnv (fun _ => None) (Some "/usr/bin/openssl")
        (fun _ _ => Raised "[Errno 13] Permission denied: '/usr/bin/openssl'")
        (fun _ => true).


(** [openssl] is installed, no directory can be written to, and so every
    run of [openssl] exits with status 1. *)
Definition read_only : Env :=
  mkEnv (fun _ => None) (Some "/usr/bin/openssl")
        (fun _ _ => Returned 1 "Error writing output") (fun _ => false).

(** A small file system: two files in [/x] and a directory [/data] with
    a sub-directory, a link to a directory and a fifo. *)
Definition data_entries : list (string * Node) :=
  [("a.p7m", File);
   ("notes.txt", File);
   ("sub", Dir [("B.P7M", File); ("pipe.p7m", Special); ("c.p7m.bak", File)]);
   ("link", DirLink)].

Definition small_fs : Env :=
  mkEnv (fun p => if String.eqb p "/data" then Some (Dir data_entries)
                  else if String.eqb p "/x/c.P7m" then Some File
                  else if String.eqb p "/x/d.pdf" then Some File
                  else None)
        (Some "/usr/bin/openssl") (fun _ _ => Returned 0 "") (fun _ => true).

(** A schedule for two rows in which the main loop is one statement
    behind at the loop head: the status callback of the first row runs
    after the worker has fetched the second row. *)
Definition one_behind : list Turn :=
  [WorkerTurn; WorkerTurn; MainTurn;              (* row 0 shows Processing... *)
   WorkerTurn; WorkerTurn; WorkerTurn;            (* run, queue status, queue fraction *)
   WorkerTurn;                                    (* item = row 1 *)
   MainTurn; MainTurn;                            (* status and fraction of row 0 *)
   WorkerTurn; MainTurn;
   WorkerTurn; WorkerTurn; WorkerTurn;
   WorkerTurn; WorkerTurn;
   MainTurn; MainTurn; MainTurn].

(** * Properties *)

(** ** Worked examples of the path functions *)

Example basename_report : PosixPath.basename "/a/b/report.p7m" = "report.p7m".
Proof. reflexivity. Qed.

Example dirname_report : PosixPath.dirname "/a/b/report.p7m" = "/a/b".
Proof. reflexivity. Qed.

Example dirname_root : PosixPath.dirname "/report.p7m" = "/".
Proof. reflexivity. Qed.

Example splitext_report :
  PosixPath.splitext "report.tar.P7M" = ("report.tar", ".P7M").
Proof. reflexivity. Qed.

Example splitext_hidden : PosixPath.splitext ".p7m" = (".p7m", "").
Proof. reflexivity. Qed.

Example join_plain : PosixPath.join "/x/y" "report.pdf" = "/x/y/report.pdf".
Proof. reflexivity. Qed.

Example join_root : PosixPath.join "/" "report.pdf" = "/report.pdf".
Proof. reflexivity. Qed.

Example lower_mixed : Str.lower "Report.P7m" = "report.p7m".
Proof. reflexivity. Qed.

Example str_12 : Str.str 12 = "12".
Proof. reflexivity. Qed.

(** ** The queue holds every path once, in first-seen order *)

Lemma in_queue_In (p : string) (q : list string) :
  in_queue p q = true <-> In p q.
Proof.
  unfold in_queue. rewrite existsb_exists. split.
  - intros [x [Hx Heq]]. apply String.eqb_eq in Heq. now subst.
  - intros H. exists p. split; [assumption | apply String.eqb_refl].
Qed.

Lemma in_queue_app (p : string) (q1 q2 : list string) :
  in_queue p (q1 ++ q2) = in_queue p q1 || in_queue p q2.
Proof. unfold in_queue. apply existsb_app. Qed.

Lemma add_present (p : string) (a : App) :
  in_queue p (file_queue a) = true -> add_file_to_queue p a = a.
Proof. intros H. unfold add_file_to_queue. now rewrite H. Qed.

Lemma add_fresh_queue (p : string) (a : App) :
  in_queue p (file_queue a) = false ->
  file_queue (add_file_to_queue p a) = file_queue a ++ [p].
Proof. intros H. unfold add_file_to_queue. now rewrite H. Qed.

(** A path not yet queued gets a new last row: the next number, counted
    from one, and status [Pending]. *)
Lemma add_fresh_model (p : string) (a : App) :
  in_queue p (file_queue a) = false ->
  model (add_file_to_queue p a)
  = model a ++ [pending_row (List.length (file_queue a)) p].
Proof.
  intros H. unfold add_file_to_queue. rewrite H. cbn.
  rewrite length_app. cbn. now rewrite Nat.add_1_r.
Qed.

Lemma absent_after_add (p : string) (q : list string) (l : list string) :
  filter (fun x => negb (in_queue x (q ++ [p]))) l
  = remove string_dec p (filter (fun x => negb (in_queue x q)) l).
Proof.
  induction l as [|x l IH]; [reflexivity|].
  cbn [filter]. rewrite in_queue_app. cbn [in_queue existsb].
  rewrite orb_false_r.
  destruct (in_queue x q) eqn:Hq; cbn [negb orb].
  - exact IH.
  - cbn [remove]. destruct (string_dec p x) as [->|Hne].
    + rewrite String.eqb_refl. exact IH.
    + destruct (String.eqb_spec x p) as [->|_]; [congruence|].
      cbn [negb]. now rewrite IH.
Qed.

Lemma first_seen_remove (p : string) (l : list string) :
  first_seen (remove string_dec p l) = remove string_dec p (first_seen l).
Proof.
  induction l as [|x l IH]; [reflexivity|].
  cbn [remove first_seen]. destruct (string_dec p x) as [->|Hne].
  - now rewrite IH, remove_remove_eq.
  - cbn [first_seen]. rewrite IH, (remove_remove_comm string_dec _ x p).
    reflexivity.
Qed.

Lemma pending_rows_from_app (k : nat) (q1 q2 : list string) :
  pending_rows_from k (q1 ++ q2)
  = pending_rows_from k q1 ++ pending_rows_from (k + List.length q1) q2.
Proof.
  revert k. induction q1 as [|p q1 IH]; intros k; cbn.
  - now rewrite Nat.add_0_r.
  - rewrite IH. now rewrite Nat.add_succ_r.
Qed.

Lemma pending_rows_full_path (k : nat) (q : list string) :
  map full_path (pending_rows_from k q) = q.
Proof.
  revert k. induction q as [|p q IH]; intros k; cbn; [reflexivity|].
  now rewrite IH.
Qed.

Lemma pending_rows_status (k : nat) (q : list string) :
  Forall (fun it => status it = Pending) (pending_rows_from k q).
Proof.
  revert k. induction q as [|p q IH]; intros k; cbn; constructor; auto.
Qed.

(** The state after any sequence of calls, from any state. *)
Lemma add_all_from (paths : list string) (a : App) :
  let fresh := first_seen (filter (fun x => negb (in_queue x (file_queue a))) paths) in
  file_queue (add_all paths a) = file_queue a ++ fresh /\
  model (add_all paths a)
  = model a ++ pending_rows_from (List.length (file_queue a)) fresh.
Proof.
  revert a. induction paths as [|p paths IH]; intros a; cbn zeta.
  - cbn. now rewrite !app_nil_r.
  - cbn [add_all fold_left filter].
    destruct (in_queue p (file_queue a)) eqn:Hp; cbn [negb].
    + rewrite (add_present _ _ Hp). apply IH.
    + specialize (IH (add_file_to_queue p a)). cbn zeta in IH.
      fold (add_all paths (add_file_to_queue p a)).
      rewrite (add_fresh_queue _ _ Hp), (add_fresh_model _ _ Hp) in IH.
      rewrite absent_after_add, first_seen_remove in IH.
      destruct IH as [IHq IHm]. rewrite IHq, IHm. cbn [first_seen].
      rewrite <- !app_assoc. cbn [List.app pending_rows_from].
      rewrite length_app. cbn [List.length]. rewrite Nat.add_1_r.
      split; reflexivity.
Qed.

Lemma NoDup_remove_all (x : string) (l : list string) :
  NoDup l -> NoDup (remove string_dec x l).
Proof.
  induction 1 as [|y l Hy Hl IH]; cbn; [constructor|].
  destruct (string_dec x y); [assumption|].
  constructor; [|assumption].
  intros Hin. apply in_remove in Hin. tauto.
Qed.

Lemma first_seen_NoDup (l : list string) : NoDup (first_seen l).
Proof.
  induction l as [|x l IH]; cbn; constructor.
  - apply remove_In.
  - now apply NoDup_remove_all.
Qed.

Lemma first_seen_In (x : string) (l : list string) :
  In x (first_seen l) <-> In x l.
Proof.
  induction l as [|y l IH]; cbn; [tauto|].
  split.
  - intros [->|Hin]; [now left|]. apply in_remove in Hin. right. tauto.
  - intros [->|Hin]; [now left|].
    destruct (string_dec y x) as [->|Hne]; [now left|].
    right. apply in_in_remove; [congruence | tauto].
Qed.

Lemma filter_all (A : Type) (f : A -> bool) (l : list A) :
  (forall x, f x = true) -> filter f l = l.
Proof.
  intros H. induction l as [|x l IH]; cbn; [reflexivity|].
  now rewrite H, IH.
Qed.

Lemma add_all_from_empty (start : App) (paths : list string) :
  file_queue start = [] ->
  model start = [] ->
  file_queue (add_all paths start) = first_seen paths /\
  model (add_all paths start) = pending_rows_from 0 (first_seen paths).
Proof.
  intros Hq Hm.
  destruct (add_all_from paths start) as [Eq Em].
  rewrite Hq, Hm in *.
  cbn [List.app List.length in_queue existsb negb] in *.
  rewrite filter_all in * by reflexivity.
  split; assumption.
Qed.

(** C1.  From an empty queue, any sequence of [add_file_to_queue] calls
    leaves the queue equal to the distinct paths of the sequence in
    first-seen order; the rows shown are those paths, numbered from one
    and [Pending]; no path occurs on two rows; and calling
    [add_file_to_queue] again with any path of the sequence changes
    nothing at all, neither the queue nor the rows nor any widget. *)
Theorem queue_first_seen (start : App) (paths : list string) :
  file_queue start = [] ->
  model start = [] ->
  let a := add_all paths start in
  file_queue a = first_seen paths /\
  model a = pending_rows_from 0 (first_seen paths) /\
  NoDup (file_queue a) /\
  NoDup (map full_path (model a)) /\
  Forall (fun p => add_file_to_queue p a = a) paths.
Proof.
  intros Hq Hm a.
  destruct (add_all_from_empty start paths Hq Hm) as [Eq Em].
  fold a in Eq, Em.
  repeat split.
  - exact Eq.
  - exact Em.
  - rewrite Eq. apply first_seen_NoDup.
  - rewrite Em, pending_rows_full_path. apply first_seen_NoDup.
  - apply Forall_forall. intros p Hin. apply add_present.
    apply in_queue_In. rewrite Eq. now apply first_seen_In.
Qed.

Lemma queue_first_seen_witness :
  file_queue built = [] /\
  model built = [] /\
  let a := add_all ["/a/x.p7m"; "/b/y.p7m"; "/a/x.p7m"] built in
  file_queue a = first_seen ["/a/x.p7m"; "/b/y.p7m"; "/a/x.p7m"] /\
  model a = pending_rows_from 0 (first_seen ["/a/x.p7m"; "/b/y.p7m"; "/a/x.p7m"]) /\
  NoDup (file_queue a) /\
  NoDup (map full_path (model a)) /\
  Forall (fun p => add_file_to_queue p a = a) ["/a/x.p7m"; "/b/y.p7m"; "/a/x.p7m"].
Proof.
  split; [reflexivity|]. split; [reflexivity|].
  apply (queue_first_seen built ["/a/x.p7m"; "/b/y.p7m"; "/a/x.p7m"]);
    reflexivity.
Defined.

Example queue_after_three_adds :
  let a := add_all ["/a/x.p7m"; "/b/y.p7m"; "/a/x.p7m"] built in
  file_queue a = ["/a/x.p7m"; "/b/y.p7m"] /\
  map id (model a) = ["1"; "2"] /\
  map status (model a) = [Pending; Pending] /\
  lbl_count a = "2 files ready".
Proof. repeat split. Qed.

(** After [on_clear_clicked] the queue and the rows are empty again, so
    the next path added is row number one. *)
Lemma clear_then_add (a : App) (p : string) :
  let c := on_clear_clicked a in
  file_queue c = [] /\ model c = [] /\
  model (add_file_to_queue p c) = [pending_row 0 p].
Proof. repeat split. Qed.

(** ** Duplicates are recognised by string equality alone *)

(** C10.  The test [path in self.file_queue] is equality of strings:
    whenever [p] and [q] are different strings, adding both to an empty
    queue yields two rows, one per string, whatever files they name.  The
    witness takes ["/a/b.p7m"] and ["/a/./b.p7m"], two spellings of one
    file. *)
Theorem distinct_spellings_both_queued (start : App) (p q : string) :
  file_queue start = [] ->
  model start = [] ->
  p <> q ->
  let a := add_all [p; q] start in
  file_queue a = [p; q] /\
  model a = [pending_row 0 p; pending_row 1 q].
Proof.
  intros Hq Hm Hne a.
  destruct (add_all_from_empty start [p; q] Hq Hm) as [Eq Em].
  fold a in Eq, Em. rewrite Eq, Em. cbn [first_seen remove].
  destruct (string_dec p q) as [E|_]; [contradiction|].
  split; reflexivity.
Qed.

Lemma distinct_spellings_both_queued_witness :
  file_queue built = [] /\
  model built = [] /\
  "/a/b.p7m" <> "/a/./b.p7m" /\
  let a := add_all ["/a/b.p7m"; "/a/./b.p7m"] built in
  file_queue a = ["/a/b.p7m"; "/a/./b.p7m"] /\
  model a = [pending_row 0 "/a/b.p7m"; pending_row 1 "/a/./b.p7m"].
Proof.
  split; [reflexivity|]. split; [reflexivity|].
  split; [discriminate|].
  apply (distinct_spellings_both_queued built "/a/b.p7m" "/a/./b.p7m");
    [reflexivity | reflexivity | discriminate].
Defined.

(** ** Runs in which a callback meets the wrong row *)

(** The two lambdas of [run_conversion_thread] look up [item] when the
    main loop runs them.  With two rows and the main loop one statement
    behind, the [Done] of the first row is written to the second. *)
Example one_behind_trace :
  let a := add_all ["/a/one.p7m"; "/a/two.p7m"] (do_activate healthy) in
  let r0 := on_convert_clicked healthy a in
  statuses (exec healthy (firstn 3 one_behind) r0) = [Processing; Pending] /\
  statuses (exec healthy (firstn 8 one_behind) r0) = [Processing; Done] /\
  statuses (exec healthy one_behind r0) = [Processing; Done].
Proof. repeat split. Qed.

(** C3 (the code departs from the claim).  Two queued files, [openssl]
    succeeding on both.  When the main loop runs the callbacks after the
    worker has moved on, [finish_conversion] runs and shows
    "Extraction Complete" while the first row is still [Pending] (or still
    [Processing], with the main loop one statement behind); with prompt
    dispatch both rows are [Done]. *)
Theorem completed_with_row_not_terminal :
  let a := add_all ["/a/one.p7m"; "/a/two.p7m"] (do_activate healthy) in
  let r0 := on_convert_clicked healthy a in
  let r := exec healthy (late 2) r0 in
  let r' := exec healthy one_behind r0 in
  (completed r = true /\ lbl_status (self r) = "Extraction Complete" /\
   pc r = Exited /\ idle r = [] /\ statuses r = [Pending; Done]) /\
  (completed r' = true /\ lbl_status (self r') = "Extraction Complete" /\
   pc r' = Exited /\ idle r' = [] /\ statuses r' = [Processing; Done]) /\
  statuses (exec healthy (prompt 2) r0) = [Done; Done].
Proof. repeat split. Qed.

(** C5 (the code departs from the claim).  Two queued files; [openssl]
    fails on the first and succeeds on the second.  Both commands are
    run, once each and in queue order, so the failure does not stop the
    run.  But with late dispatch the first row is never marked [Error]:
    its [Error] is written to the second row and then overwritten. *)
Theorem failed_row_not_marked :
  let a := add_all ["/a/bad.p7m"; "/a/good.p7m"] (do_activate first_fails) in
  let r0 := on_convert_clicked first_fails a in
  let r := exec first_fails (late 2) r0 in
  let r' := exec first_fails one_behind r0 in
  map arguments (calls r)
  = [["smime"; "-verify"; "-noverify"; "-binary"; "-inform"; "DER";
      "-in"; "/a/bad.p7m"; "-out"; "/a/bad.pdf"];
     ["smime"; "-verify"; "-noverify"; "-binary"; "-inform"; "DER";
      "-in"; "/a/good.p7m"; "-out"; "/a/good.pdf"]] /\
  dispatched r
  = [SetItemStatus Processing; SetItemStatus Error; SetFraction (1 # 2);
     SetItemStatus Processing; SetItemStatus Done; SetFraction (2 # 2);
     FinishConversion] /\
  statuses r = [Pending; Done] /\
  statuses r' = [Processing; Done] /\
  statuses (exec first_fails (firstn 8 one_behind) r0) = [Processing; Error] /\
  statuses (exec first_fails (prompt 2) r0) = [Error; Done].
Proof. repeat split. Qed.

(** ** A run without [openssl] *)

(** C4 (the code departs from the claim).  Without [openssl],
    [check_openssl] disables the Extract button and reports the error;
    the first [add_file_to_queue] enables the button again through
    [update_ui_state]; the click starts a run, [subprocess.run] raises for
    the missing program name, the row ends as [Error] and the run ends
    with "Extraction Complete". *)
Theorem run_starts_without_openssl :
  let a0 := do_activate no_openssl in
  let a := add_file_to_queue "/a/b/report.p7m" a0 in
  btn_convert a0 = false /\
  lbl_status a0 = "Error: OpenSSL not found" /\
  click_convert no_openssl a0 = None /\
  btn_convert a = true /\
  click_convert no_openssl a = Some (on_convert_clicked no_openssl a) /\
  let r := exec no_openssl (prompt 1) (on_convert_clicked no_openssl a) in
  statuses r = [Error] /\
  map program (calls r) = [None] /\
  log r = ["Conversion error: expected str, bytes or os.PathLike object, not NoneType"] /\
  completed r = true /\
  lbl_status (self r) = "Extraction Complete" /\
  statuses (exec no_openssl (late 1) (on_convert_clicked no_openssl a)) = [Error].
Proof. repeat split. Qed.

(** Whatever the environment, a first path added after start-up leaves
    the Extract button sensitive. *)
Lemma add_enables_convert (e : Env) (p : string) :
  btn_convert (add_file_to_queue p (do_activate e)) = true.
Proof.
  unfold do_activate, check_openssl.
  destruct (which_openssl e); reflexivity.
Qed.

(** ** Facts about the string and path functions *)

Lemma take_drop (n : nat) (s : string) : (Str.take n s ++ Str.drop n s)%string = s.
Proof.
  revert n. induction s as [|a s IH]; intros [|n]; cbn; try reflexivity.
  now rewrite IH.
Qed.

Lemma length_append (s t : string) :
  String.length (s ++ t) = String.length s + String.length t.
Proof. induction s as [|a s IH]; cbn; [reflexivity | now rewrite IH]. Qed.

Lemma drop_append_length (s t : string) :
  Str.drop (String.length s) (s ++ t) = t.
Proof. induction s as [|a s IH]; cbn; [now destruct t | exact IH]. Qed.

Lemma append_assoc (s t u : string) : ((s ++ t) ++ u = s ++ (t ++ u))%string.
Proof. induction s as [|a s IH]; cbn; [reflexivity | now rewrite IH]. Qed.

Lemma endswith_iff (t s : string) :
  Str.endswith t s = true <-> exists pre, s = (pre ++ t)%string.
Proof.
  unfold Str.endswith. rewrite andb_true_iff, Nat.leb_le, String.eqb_eq.
  split.
  - intros [_ H].
    set (n := String.length s - String.length t) in H.
    exists (Str.take n s). rewrite <- H. symmetry. apply take_drop.
  - intros [pre ->]. rewrite length_append. split; [lia|].
    replace (String.length pre + String.length t - String.length t)
      with (String.length pre) by lia.
    apply drop_append_length.
Qed.

Lemma endswith_append (t pre s : string) :
  Str.endswith t s = true -> Str.endswith t (pre ++ s) = true.
Proof.
  rewrite !endswith_iff. intros [x ->]. exists (pre ++ x)%string.
  symmetry. apply append_assoc.
Qed.

Lemma lower_append (s t : string) :
  Str.lower (s ++ t) = (Str.lower s ++ Str.lower t)%string.
Proof. induction s as [|a s IH]; cbn; [reflexivity | now rewrite IH]. Qed.

Lemma rfind_none_cons (c a : ascii) (s : string) :
  Str.rfind c (String a s) = None -> a <> c /\ Str.rfind c s = None.
Proof.
  cbn. destruct (Str.rfind c s); [discriminate|].
  destruct (Ascii.eqb_spec a c); [discriminate|]. now split.
Qed.

(** Nothing after the last occurrence of [c] is [c]. *)
Lemma rfind_drop_none (c : ascii) (s : string) :
  Str.rfind c (Str.drop (Str.rfind_succ c s) s) = None.
Proof.
  unfold Str.rfind_succ.
  induction s as [|a s IH]; [reflexivity|].
  cbn [Str.rfind]. destruct (Str.rfind c s) as [i|] eqn:E.
  - exact IH.
  - destruct (Ascii.eqb_spec a c) as [->|Hne]; cbn [Str.drop].
    + exact E.
    + cbn [Str.rfind]. rewrite E.
      destruct (Ascii.eqb_spec a c); [contradiction | reflexivity].
Qed.

(** At the last occurrence of [c] stands [c], and none follows. *)
Lemma rfind_some_drop (c : ascii) (s : string) (d : nat) :
  Str.rfind c s = Some d ->
  exists rest, Str.drop d s = String c rest /\ Str.rfind c rest = None.
Proof.
  revert d. induction s as [|a s IH]; intros d; [discriminate|].
  cbn [Str.rfind]. destruct (Str.rfind c s) as [i|] eqn:E.
  - intros [= <-]. cbn [Str.drop]. now apply IH.
  - destruct (Ascii.eqb_spec a c) as [->|Hne]; [|discriminate].
    intros [= <-]. exists s. now split.
Qed.

Lemma basename_no_sep (p : string) :
  Str.rfind PosixPath.sep (PosixPath.basename p) = None.
Proof. apply rfind_drop_none. Qed.

Lemma append_empty_r (s : string) : (s ++ "")%string = s.
Proof. induction s as [|a s IH]; cbn; [reflexivity | now rewrite IH]. Qed.

(** [root + ext == p], as the documentation of [splitext] promises. *)
Lemma splitext_concat (p : string) :
  (fst (PosixPath.splitext p) ++ snd (PosixPath.splitext p))%string = p.
Proof.
  unfold PosixPath.splitext.
  destruct (Str.rfind PosixPath.extsep p) as [d|].
  - destruct (_ && _); cbn [fst snd].
    + apply take_drop.
    + apply append_empty_r.
  - cbn [fst snd]. apply append_empty_r.
Qed.

(** The extension is empty, or a dot followed by characters none of
    which is a dot. *)
Lemma splitext_ext (p : string) :
  snd (PosixPath.splitext p) = "" \/
  exists rest, snd (PosixPath.splitext p) = String PosixPath.extsep rest
               /\ Str.rfind PosixPath.extsep rest = None.
Proof.
  unfold PosixPath.splitext.
  destruct (Str.rfind PosixPath.extsep p) as [d|] eqn:E; [|now left].
  destruct (_ && _); cbn [snd]; [|now left].
  right. now apply rfind_some_drop.
Qed.

Lemma take_head (n : nat) (a b : ascii) (s t : string) :
  Str.take n (String a s) = String b t -> b = a.
Proof. destruct n; cbn; [discriminate | now intros [= <- _]]. Qed.

(** The stem of a name without separator does not begin with one, with
    or without the new extension. *)
Lemma stem_not_absolute (b : string) :
  Str.rfind PosixPath.sep b = None ->
  Str.startswith "/" (fst (PosixPath.splitext b) ++ ".pdf") = false.
Proof.
  intros Hb.
  assert (Hhead : forall a s, fst (PosixPath.splitext b) = String a s ->
                              a <> PosixPath.sep).
  { intros a s. unfold PosixPath.splitext.
    destruct (Str.rfind PosixPath.extsep b) as [d|].
    - destruct (_ && _); cbn [fst]; intros H.
      + destruct b as [|a0 b]; [now destruct d|].
        apply take_head in H. subst a.
        now apply rfind_none_cons in Hb.
      + subst b. now apply rfind_none_cons in Hb.
    - cbn [fst]. intros ->. now apply rfind_none_cons in Hb. }
  destruct (fst (PosixPath.splitext b)) as [|a s] eqn:E; [reflexivity|].
  specialize (Hhead a s eq_refl).
  unfold Str.startswith. cbn [String.append String.prefix].
  destruct (ascii_dec "/" a) as [<-|_]; [now elim Hhead | reflexivity].
Qed.

(** ** The output path *)

(** C6.  For the row of any queued path [p] (whatever its number and
    status): the output name is the base name of [p] with the extension
    that [splitext] finds replaced by [.pdf]; the output directory is the
    override when one is set and not empty, else the directory of [p];
    the output path is the name placed in that directory.  In
    particular [/a/b/report.p7m] goes to [/a/b/report.pdf] without
    override and to [/x/y/report.pdf] with override [/x/y]. *)
Theorem output_path_resolved (a : App) (p i : string) (s : Status) :
  let it := mkFileItem i (PosixPath.basename p) (PosixPath.dirname p) p s in
  let stem := fst (PosixPath.splitext (PosixPath.basename p)) in
  let ext := snd (PosixPath.splitext (PosixPath.basename p)) in
  let d := match custom_export_path a with
           | Some o => if String.eqb o "" then PosixPath.dirname p else o
           | None => PosixPath.dirname p
           end in
  (stem ++ ext)%string = PosixPath.basename p /\
  (ext = "" \/ exists rest, ext = String "." rest /\ Str.rfind "." rest = None) /\
  base it = (stem ++ ".pdf")%string /\
  dest a it = d /\
  out_path a it
  = (if String.eqb d "" || Str.endswith "/" d
     then d ++ stem ++ ".pdf"
     else d ++ "/" ++ stem ++ ".pdf")%string /\
  out_path (set_custom_export_path None a)
           (mkFileItem i "report.p7m" "/a/b" "/a/b/report.p7m" s)
  = "/a/b/report.pdf" /\
  out_path (set_custom_export_path (Some "") a)
           (mkFileItem i "report.p7m" "/a/b" "/a/b/report.p7m" s)
  = "/a/b/report.pdf" /\
  out_path (set_custom_export_path (Some "/x/y") a)
           (mkFileItem i "report.p7m" "/a/b" "/a/b/report.p7m" s)
  = "/x/y/report.pdf".
Proof.
  intros it stem ext d.
  split; [apply splitext_concat|].
  split; [apply splitext_ext|].
  split; [reflexivity|].
  split; [reflexivity|].
  split; [|repeat split].
  unfold out_path, PosixPath.join. fold d.
  change (base it) with (stem ++ ".pdf")%string.
  unfold stem. rewrite stem_not_absolute by apply basename_no_sep.
  reflexivity.
Qed.

Example output_path_of_queued_report :
  let a := add_file_to_queue "/a/b/report.p7m" built in
  map (out_path a) (model a) = ["/a/b/report.pdf"] /\
  map (out_path (set_custom_export_path (Some "/x/y") a)) (model a)
  = ["/x/y/report.pdf"] /\
  map (out_path (set_custom_export_path (Some "/x/y/") a)) (model a)
  = ["/x/y/report.pdf"].
Proof. repeat split. Qed.

(** ** The verdict of one invocation *)

Lemma success_iff (o : Outcome) :
  success o = true <-> exists err, o = Returned 0 err.
Proof.
  destruct o as [rc err|m]; cbn.
  - rewrite Z.eqb_eq. split.
    + intros ->. now exists err.
    + now intros [err' [= -> _]].
  - split; [discriminate | now intros [err H]].
Qed.

Lemma verdict_done (ok : bool) : verdict ok = Done <-> ok = true.
Proof. destruct ok; cbn; split; congruence. Qed.

Lemma verdict_error (ok : bool) : verdict ok = Error <-> ok = false.
Proof. destruct ok; cbn; split; congruence. Qed.

Lemma set_status_at_nth_error (k : nat) (s : Status) (m : list FileItem)
      (it : FileItem) :
  nth_error m k = Some it ->
  nth_error (set_status_at k s m) k
  = Some (mkFileItem (id it) (filename it) (path it) (full_path it) s).
Proof.
  revert k. induction m as [|x m IH]; intros [|k]; cbn; try discriminate.
  - now intros [= ->].
  - apply IH.
Qed.

(** One invocation, seen from the worker.  When the worker runs the
    command of the row its [item] refers to, the command is given to
    [subprocess.run] once; the status it then queues is [Done] exactly
    when the process returned with exit status 0, and [Error] both when
    it returned another status and when [subprocess.run] raised; a raise
    leaves the line [Conversion error: ...] in the log, a returned
    process leaves none; and the callback, if it runs while [item] still
    names the row, sets that row's status and nothing else of it. *)
Lemma invocation_queues_verdict (e : Env) (r : Run) (i : nat) (it : FileItem) :
  pc r = AtRun i ->
  item_row r = Some it ->
  let c := cmd (openssl r) (self r) it in
  let o := subprocess_run e (List.length (calls r)) c in
  let r1 := worker_step e r in
  let r2 := worker_step e r1 in
  calls r2 = calls r ++ [c] /\
  log r2 = log r ++ match o with
                    | Returned _ _ => []
                    | Raised m => [("Conversion error: " ++ m)%string]
                    end /\
  exists s,
    idle r2 = idle r ++ [SetItemStatus s] /\
    (s = Done <-> exists err, o = Returned 0 err) /\
    (s = Error <-> (exists rc err, o = Returned rc err /\ rc <> 0%Z)
                   \/ exists m, o = Raised m) /\
    item_row (dispatch (SetItemStatus s) r2)
    = Some (mkFileItem (id it) (filename it) (path it) (full_path it) s).
Proof.
  intros Hpc Hrow c o r1 r2.
  assert (E1 : r1 = set_pc (AtStatus i (verdict (success o)))
                           (record_call c (logged o) r)).
  { unfold r1, worker_step. rewrite Hpc, Hrow. reflexivity. }
  assert (E2 : r2 = set_pc (AtFraction i)
                           (idle_add (SetItemStatus (verdict (success o))) r1)).
  { unfold r2, worker_step. rewrite E1. reflexivity. }
  rewrite E2, E1. cbn [calls log set_pc idle_add record_call idle].
  split; [reflexivity|].
  split; [now destruct o|].
  exists (verdict (success o)).
  split; [reflexivity|].
  split; [rewrite verdict_done; apply success_iff|].
  split.
  - rewrite verdict_error. destruct o as [rc err|m]; cbn [success].
    + rewrite Z.eqb_neq. split.
      * intros Hne. left. now exists rc, err.
      * intros [(rc' & err' & [= -> _] & Hne)|[m [=]]]. exact Hne.
    + split; [intros _; right; now exists m | reflexivity].
  - unfold item_row in *.
    unfold dispatch, set_pc, idle_add, record_call, set_self, set_model, set_queue.
    cbn [item self model].
    destruct (item r) as [k|]; [|discriminate].
    cbn [item self model].
    now apply set_status_at_nth_error.
Qed.

(** The three kinds of outcome on one row. *)
Example verdict_examples :
  verdict (success (Returned 0 "")) = Done /\
  verdict (success (Returned 0 "Verification successful")) = Done /\
  verdict (success (Returned 1 "Error reading S/MIME message")) = Error /\
  verdict (success (Raised "[Errno 13] Permission denied: 'openssl'")) = Error /\
  logged (Returned 1 "Error reading S/MIME message") = [] /\
  logged (Raised "[Errno 13] Permission denied: 'openssl'")
  = ["Conversion error: [Errno 13] Permission denied: 'openssl'"].
Proof. repeat split. Qed.

(** ** Discovery *)

Lemma Node_nested_ind (P : Node -> Prop) :
  P File -> P Special -> P DirLink ->
  (forall es, Forall (fun e => P (snd e)) es -> P (Dir es)) ->
  forall n, P n.
Proof.
  intros Hf Hs Hl Hd. fix IH 1. intros [ | | | es]; try assumption.
  apply Hd. induction es as [|[name child] es IHes]; constructor.
  - apply IH.
  - exact IHes.
Qed.

Lemma walk_Dir (top : string) (es : list (string * Node)) :
  walk top (Dir es) = (top, dirs_of es, nondirs_of es) :: walk_entries top es.
Proof.
  cbn [walk]. f_equal. unfold walk_entries.
  induction es as [|[name child] es IH]; [reflexivity|].
  cbn [flat_map fst snd]. now rewrite IH.
Qed.

Lemma nondirs_of_In (name : string) (es : list (string * Node)) :
  In name (nondirs_of es) <->
  exists child, In (name, child) es /\ is_dir_entry child = false.
Proof.
  unfold nondirs_of. rewrite in_map_iff. split.
  - intros [[n child] [<- Hin]]. apply filter_In in Hin as [Hin Hk].
    exists child. cbn in *. split; [assumption|].
    now apply negb_true_iff in Hk.
  - intros [child [Hin Hk]]. exists (name, child). split; [reflexivity|].
    apply filter_In. split; [assumption|]. cbn. now rewrite Hk.
Qed.

(** Every entry that is not a directory, at any depth below real
    directories, is among the file names of one triple of the walk. *)
Lemma walk_complete (top : string) (n : Node) (name : string) (child : Node)
      (p : string) :
  Within top n name child p ->
  exists root ds fs,
    In (root, ds, fs) (walk top n) /\ In name fs /\ p = PosixPath.join root name.
Proof.
  induction 1 as [top es name child Hin Hk
                 |top es d sub name child p Hin _ IH].
  - exists top, (dirs_of es), (nondirs_of es). rewrite walk_Dir.
    split; [now left|]. split; [|reflexivity].
    apply nondirs_of_In. now exists child.
  - destruct IH as (root & ds & fs & Hw & Hn & ->).
    exists root, ds, fs. rewrite walk_Dir.
    split; [|now split]. right. unfold walk_entries.
    apply in_flat_map. now exists (d, Dir sub).
Qed.

(** Every file name of a triple of the walk is such an entry. *)
Lemma walk_sound (n : Node) :
  forall top root ds fs name,
    In (root, ds, fs) (walk top n) -> In name fs ->
    exists child, Within top n name child (PosixPath.join root name)
                  /\ is_dir_entry child = false.
Proof.
  induction n as [ | | | es IH] using Node_nested_ind;
    intros top root ds fs name Hw Hn; try contradiction.
  rewrite walk_Dir in Hw. destruct Hw as [[= <- <- <-]|Hw].
  - apply nondirs_of_In in Hn as [child [Hin Hk]].
    exists child. split; [now apply Within_here | assumption].
  - unfold walk_entries in Hw. apply in_flat_map in Hw as [[d sub] [Hin Hw]].
    cbn [fst snd] in Hw. rewrite Forall_forall in IH.
    destruct (IH _ Hin _ _ _ _ _ Hw Hn) as [child [HW Hk]].
    cbn [snd] in HW. exists child. split; [|assumption].
    destruct sub as [ | | | sub]; try contradiction.
    now apply Within_below with (d := d) (sub := sub).
Qed.

Lemma join_suffix (a b : string) :
  exists pre, PosixPath.join a b = (pre ++ b)%string.
Proof.
  unfold PosixPath.join. destruct (Str.startswith "/" b).
  - now exists "".
  - destruct (_ || _).
    + now exists a.
    + exists (a ++ "/")%string. symmetry. apply append_assoc.
Qed.

Lemma is_p7m_append (pre s : string) :
  is_p7m s = true -> is_p7m (pre ++ s) = true.
Proof.
  unfold is_p7m. rewrite lower_append. apply endswith_append.
Qed.

Lemma is_p7m_join (root name : string) :
  is_p7m name = true -> is_p7m (PosixPath.join root name) = true.
Proof.
  destruct (join_suffix root name) as [pre ->]. apply is_p7m_append.
Qed.

(** The candidates of one input path. *)
Lemma candidates_In (e : Env) (p c : string) :
  In c (candidates e p) <->
  (c = p /\ isfile e p = true /\ is_p7m p = true) \/
  (exists es name child,
      stat e p = Some (Dir es) /\ Within p (Dir es) name child c /\
      is_dir_entry child = false /\ is_p7m name = true).
Proof.
  unfold candidates, isfile, isdir, os_walk.
  destruct (stat e p) as [[ | | | es]|] eqn:Hs; cbn [andb].
  - destruct (is_p7m p) eqn:Hp; cbn [In].
    + split; [intros [<-|[]]; now left|].
      intros [[-> _]|(es & ? & ? & [=] & _)]. now left.
    + split; [intros []|].
      intros [(_ & _ & [=])|(es & ? & ? & [=] & _)].
  - split; [intros []|].
    intros [(_ & [=] & _)|(es & ? & ? & [=] & _)].
  - split; [intros []|].
    intros [(_ & [=] & _)|(es & ? & ? & [=] & _)].
  - rewrite in_flat_map. split.
    + intros [[[root ds] fs] [Hw Hc]]. cbn [fst snd] in Hc.
      apply in_map_iff in Hc as [name [<- Hf]].
      apply filter_In in Hf as [Hn Hp].
      destruct (walk_sound _ _ _ _ _ _ Hw Hn) as [child [HW Hk]].
      right. now exists es, name, child.
    + intros [(_ & [=] & _)|(es' & name & child & [= <-] & HW & Hk & Hp)].
      destruct (walk_complete _ _ _ _ _ HW) as (root & ds & fs & Hw & Hn & ->).
      exists (root, ds, fs). split; [assumption|]. cbn [fst snd].
      apply in_map. apply filter_In. now split.
  - split; [intros []|].
    intros [(_ & [=] & _)|(es & ? & ? & [=] & _)].
Qed.

Lemma Within_not_dir (top : string) (n : Node) (name : string) (child : Node)
      (p : string) :
  Within top n name child p -> is_dir_entry child = false.
Proof. induction 1; assumption. Qed.

Lemma Within_path (top : string) (n : Node) (name : string) (child : Node)
      (p : string) :
  Within top n name child p -> exists pre, p = (pre ++ name)%string.
Proof.
  induction 1 as [top es name child _ _|]; [|assumption].
  destruct (join_suffix top name) as [pre E]. now exists pre.
Qed.

(** [process_added_items] calls [add_file_to_queue] on the candidates, in
    order, and counts them. *)
Lemma scan_names_spec (root : string) (fs : list string) (st : App * nat) :
  let cs := map (PosixPath.join root) (filter is_p7m fs) in
  scan_names root fs st = (add_all cs (fst st), snd st + List.length cs).
Proof.
  revert st. induction fs as [|name fs IH]; intros [a n]; cbn zeta.
  - cbn. now rewrite Nat.add_0_r.
  - unfold scan_names. cbn [fold_left filter].
    destruct (is_p7m name); cbn [map List.length add_all fold_left].
    + fold (scan_names root fs (add_counted (PosixPath.join root name) (a, n))).
      rewrite IH. cbn [add_counted fst snd]. f_equal. lia.
    + fold (scan_names root fs (a, n)). now rewrite IH.
Qed.

Lemma add_all_app (l1 l2 : list string) (a : App) :
  add_all (l1 ++ l2) a = add_all l2 (add_all l1 a).
Proof. unfold add_all. apply fold_left_app. Qed.

Lemma scan_walk_spec (ts : list (string * list string * list string))
      (st : App * nat) :
  let cs := flat_map (fun t => map (PosixPath.join (fst (fst t)))
                                   (filter is_p7m (snd t))) ts in
  fold_left (fun st t => scan_names (fst (fst t)) (snd t) st) ts st
  = (add_all cs (fst st), snd st + List.length cs).
Proof.
  revert st. induction ts as [|t ts IH]; intros [a n]; cbn zeta.
  - cbn. now rewrite Nat.add_0_r.
  - cbn [fold_left flat_map]. rewrite scan_names_spec, IH.
    cbn [fst snd]. rewrite add_all_app, length_app. f_equal. lia.
Qed.

Lemma scan_path_spec (e : Env) (st : App * nat) (p : string) :
  scan_path e st p
  = (add_all (candidates e p) (fst st), snd st + List.length (candidates e p)).
Proof.
  unfold scan_path, candidates. destruct st as [a n].
  destruct (isfile e p && is_p7m p).
  - unfold add_counted. cbn [fst snd add_all fold_left List.length].
    f_equal. lia.
  - destruct (isdir e p).
    + apply scan_walk_spec.
    + cbn. now rewrite Nat.add_0_r.
Qed.

Lemma scan_paths_spec (e : Env) (paths : list string) (st : App * nat) :
  fold_left (scan_path e) paths st
  = (add_all (discover e paths) (fst st),
     snd st + List.length (discover e paths)).
Proof.
  revert st. induction paths as [|p paths IH]; intros [a n].
  - cbn. now rewrite Nat.add_0_r.
  - cbn [fold_left discover flat_map]. rewrite scan_path_spec, IH.
    cbn [fst snd]. fold (discover e paths).
    rewrite add_all_app, length_app. f_equal. lia.
Qed.

Lemma process_added_items_queue (e : Env) (paths : list string) (a : App) :
  file_queue (process_added_items e paths a)
  = file_queue (add_all (discover e paths) a) /\
  model (process_added_items e paths a)
  = model (add_all (discover e paths) a).
Proof.
  unfold process_added_items. rewrite scan_paths_spec. cbn [fst snd].
  destruct (0 <? _); split; reflexivity.
Qed.

Lemma lower_split (p x y : string) :
  Str.lower p = (x ++ y)%string ->
  exists p1 p2, p = (p1 ++ p2)%string /\ Str.lower p1 = x /\ Str.lower p2 = y.
Proof.
  revert p. induction x as [|a x IH]; intros p H.
  - now exists "", p.
  - destruct p as [|b p]; [discriminate|].
    cbn in H. injection H as Ha Hx.
    destruct (IH _ Hx) as (p1 & p2 & -> & H1 & H2).
    exists (String b p1), p2. cbn. now rewrite Ha, H1.
Qed.

Lemma lower_char_sep : Str.lower_char PosixPath.sep = PosixPath.sep.
Proof. reflexivity. Qed.

Lemma lower_rfind_sep (s : string) :
  Str.rfind PosixPath.sep (Str.lower s) = None ->
  Str.rfind PosixPath.sep s = None.
Proof.
  induction s as [|a s IH]; [reflexivity|].
  cbn [Str.lower]. intros H. apply rfind_none_cons in H as [Ha Hs].
  cbn [Str.rfind]. rewrite (IH Hs).
  destruct (Ascii.eqb_spec a PosixPath.sep) as [->|_]; [|reflexivity].
  now rewrite lower_char_sep in Ha.
Qed.

Lemma rfind_append_none (c : ascii) (s t : string) :
  Str.rfind c t = None -> Str.rfind c (s ++ t) = Str.rfind c s.
Proof.
  intros Ht. induction s as [|a s IH]; cbn; [assumption | now rewrite IH].
Qed.

Lemma rfind_lt (c : ascii) (s : string) (i : nat) :
  Str.rfind c s = Some i -> i < String.length s.
Proof.
  revert i. induction s as [|a s IH]; intros i; [discriminate|].
  cbn. destruct (Str.rfind c s) as [j|].
  - intros [= <-]. specialize (IH j eq_refl). lia.
  - destruct (Ascii.eqb a c); [|discriminate]. intros [= <-]. lia.
Qed.

Lemma drop_append (k : nat) (s t : string) :
  k <= String.length s -> Str.drop k (s ++ t) = (Str.drop k s ++ t)%string.
Proof.
  revert k. induction s as [|a s IH]; intros [|k] H; cbn in *;
    try reflexivity; try lia.
  apply IH. lia.
Qed.

Lemma basename_append (p1 p2 : string) :
  Str.rfind PosixPath.sep p2 = None ->
  PosixPath.basename (p1 ++ p2) = (PosixPath.basename p1 ++ p2)%string.
Proof.
  intros H. unfold PosixPath.basename, Str.rfind_succ.
  rewrite (rfind_append_none _ p1 p2 H).
  destruct (Str.rfind PosixPath.sep p1) as [i|] eqn:E.
  - apply drop_append. apply rfind_lt in E. lia.
  - reflexivity.
Qed.

(** The test on a path and the test on its base name agree: the suffix
    [.p7m] holds no separator. *)
Lemma is_p7m_basename (p : string) :
  is_p7m (PosixPath.basename p) = is_p7m p.
Proof.
  destruct (is_p7m p) eqn:Hp.
  - unfold is_p7m in Hp. apply endswith_iff in Hp as [pre Hp].
    apply lower_split in Hp as (p1 & p2 & -> & _ & H2).
    rewrite basename_append.
    + apply is_p7m_append. unfold is_p7m. now rewrite H2.
    + apply lower_rfind_sep. now rewrite H2.
  - destruct (is_p7m (PosixPath.basename p)) eqn:Hb; [|reflexivity].
    rewrite <- Hp. symmetry.
    rewrite <- (take_drop (Str.rfind_succ PosixPath.sep p) p).
    now apply is_p7m_append.
Qed.

Lemma discover_In (e : Env) (paths : list string) (c : string) :
  In c (discover e paths) <->
  (In c paths /\ isfile e c = true /\ is_p7m c = true) \/
  (exists p es name child,
      In p paths /\ stat e p = Some (Dir es) /\
      Within p (Dir es) name child c /\
      is_dir_entry child = false /\ is_p7m name = true).
Proof.
  unfold discover. rewrite in_flat_map. split.
  - intros [p [Hin Hc]]. apply candidates_In in Hc.
    destruct Hc as [(-> & Hf & Hp)|(es & name & child & Hs & HW & Hk & Hp)].
    + now left.
    + right. now exists p, es, name, child.
  - intros [(Hin & Hf & Hp)|(p & es & name & child & Hin & Hs & HW & Hk & Hp)].
    + exists c. split; [assumption|]. apply candidates_In. now left.
    + exists p. split; [assumption|]. apply candidates_In. right.
      now exists es, name, child.
Qed.

Lemma discover_is_p7m (e : Env) (paths : list string) (c : string) :
  In c (discover e paths) -> is_p7m c = true.
Proof.
  intros H. apply discover_In in H.
  destruct H as [(_ & _ & Hp)|(p & es & name & child & _ & _ & HW & _ & Hp)].
  - exact Hp.
  - apply Within_path in HW as [pre ->]. now apply is_p7m_append.
Qed.

(** C9.  [process_added_items] hands to [add_file_to_queue] exactly the
    paths [discover] lists.  An input path that is a regular file is
    among them if and only if its name ends with [.p7m], letter case
    ignored.  For an input path that is a directory, every regular file
    below it, at any depth, whose name ends so is among them, under the
    path the walk builds for it.  Every path among them has a name that
    ends so, and is either such an input file or an entry found under
    such an input directory whose own name ends so. *)
Theorem discovery_by_extension (e : Env) (paths : list string) :
  (forall a,
      file_queue (process_added_items e paths a)
      = file_queue (add_all (discover e paths) a)) /\
  (forall p, In p paths -> isfile e p = true ->
      (In p (discover e paths) <-> is_p7m (PosixPath.basename p) = true)) /\
  (forall p es name c,
      In p paths -> stat e p = Some (Dir es) ->
      Within p (Dir es) name File c -> is_p7m name = true ->
      In c (discover e paths)) /\
  (forall c, In c (discover e paths) ->
      is_p7m (PosixPath.basename c) = true /\
      ((In c paths /\ isfile e c = true) \/
       exists p es name child,
         In p paths /\ stat e p = Some (Dir es) /\
         Within p (Dir es) name child c /\
         is_dir_entry child = false /\ is_p7m name = true)).
Proof.
  split; [intros a; apply process_added_items_queue|].
  split; [|split].
  - intros p Hin Hf. rewrite is_p7m_basename. split.
    + apply discover_is_p7m.
    + intros Hp. apply discover_In. now left.
  - intros p es name c Hin Hs HW Hp. apply discover_In. right.
    exists p, es, name, File. repeat split; assumption.
  - intros c Hc. split.
    + rewrite is_p7m_basename. now apply discover_is_p7m with (e := e) (paths := paths).
    + apply discover_In in Hc.
      destruct Hc as [(Hin & Hf & _)|H]; [now left | now right].
Qed.

Example discover_small_fs :
  discover small_fs ["/x/c.P7m"; "/x/d.pdf"; "/data"; "/missing.p7m"]
  = ["/x/c.P7m"; "/data/a.p7m"; "/data/sub/B.P7M"; "/data/sub/pipe.p7m"].
Proof. reflexivity. Qed.

Example walk_small_fs :
  os_walk small_fs "/data"
  = [("/data", ["sub"; "link"], ["a.p7m"; "notes.txt"]);
     ("/data/sub", [], ["B.P7M"; "pipe.p7m"; "c.p7m.bak"])].
Proof. reflexivity. Qed.

Lemma discovery_by_extension_witness :
  let paths := ["/x/c.P7m"; "/x/d.pdf"; "/data"] in
  In "/data" paths /\
  stat small_fs "/data" = Some (Dir data_entries) /\
  Within "/data" (Dir data_entries) "B.P7M" File "/data/sub/B.P7M" /\
  is_p7m "B.P7M" = true /\
  In "/data/sub/B.P7M" (discover small_fs paths) /\
  In "/x/d.pdf" paths /\
  isfile small_fs "/x/d.pdf" = true /\
  (In "/x/d.pdf" (discover small_fs paths)
   <-> is_p7m (PosixPath.basename "/x/d.pdf") = true).
Proof.
  intros paths.
  assert (HW : Within "/data" (Dir data_entries) "B.P7M" File "/data/sub/B.P7M").
  { apply Within_below
      with (d := "sub")
           (sub := [("B.P7M", File); ("pipe.p7m", Special); ("c.p7m.bak", File)]).
    - cbn. tauto.
    - apply (Within_here "/data/sub" _ "B.P7M" File); [cbn; tauto | reflexivity]. }
  destruct (discovery_by_extension small_fs paths) as (_ & Hfile & Hdir & _).
  split; [cbn; tauto|]. split; [reflexivity|]. split; [exact HW|].
  split; [reflexivity|].
  split; [apply (Hdir "/data" data_entries "B.P7M" "/data/sub/B.P7M");
          [cbn; tauto | reflexivity | exact HW | reflexivity]|].
  split; [cbn; tauto|]. split; [reflexivity|].
  apply (Hfile "/x/d.pdf"); [cbn; tauto | reflexivity].
Defined.

(** ** What every schedule preserves *)

Lemma firstn_snoc (A : Type) (l : list A) (k : nat) (x : A) :
  nth_error l k = Some x -> firstn (S k) l = firstn k l ++ [x].
Proof.
  revert k. induction l as [|y l IH]; intros [|k]; cbn; try discriminate.
  - now intros [= ->].
  - intros H. now rewrite <- (IH k H).
Qed.

Lemma scripts_from_length (e : Env) (a : App) (k : nat) (rows : list FileItem) :
  List.length (scripts_from e a k rows) = 3 * List.length rows.
Proof.
  revert k. induction rows as [|it rows IH]; intros k; cbn [scripts_from];
    [reflexivity|].
  rewrite length_app, IH. cbn. lia.
Qed.

Lemma script_length (e : Env) (a : App) :
  List.length (script e a) = 3 * List.length (model a) + 1.
Proof.
  unfold script. rewrite length_app, scripts_from_length. reflexivity.
Qed.

(** The three callbacks of row [j] stand at the places [3j], [3j+1] and
    [3j+2] of the script. *)
Lemma scripts_from_nth (e : Env) (a : App) (tl : list Callback)
      (rows : list FileItem) :
  forall k j it,
    nth_error rows j = Some it ->
    nth_error (scripts_from e a k rows ++ tl) (3 * j)
    = Some (SetItemStatus Processing) /\
    nth_error (scripts_from e a k rows ++ tl) (3 * j + 1)
    = Some (SetItemStatus (verdict_at e a (k + j) it)) /\
    nth_error (scripts_from e a k rows ++ tl) (3 * j + 2)
    = Some (SetFraction (fraction (S (k + j)) (List.length (model a)))).
Proof.
  induction rows as [|x rows IH]; intros k [|j] it H; try discriminate.
  - cbn in H. injection H as ->. rewrite Nat.add_0_r. repeat split.
  - cbn [nth_error] in H.
    replace (3 * S j) with (S (S (S (3 * j)))) by lia.
    replace (k + S j) with (S k + j) by lia.
    cbn [scripts_from item_script List.app nth_error Nat.add].
    apply (IH (S k) j it H).
Qed.

Lemma script_nth (e : Env) (a : App) (j : nat) (it : FileItem) :
  nth_error (model a) j = Some it ->
  nth_error (script e a) (3 * j) = Some (SetItemStatus Processing) /\
  nth_error (script e a) (3 * j + 1)
  = Some (SetItemStatus (verdict_at e a j it)) /\
  nth_error (script e a) (3 * j + 2)
  = Some (SetFraction (fraction (S j) (List.length (model a)))).
Proof.
  intros H. apply (scripts_from_nth e a [FinishConversion] _ 0 j it H).
Qed.

Lemma script_nth_finish (e : Env) (a : App) :
  nth_error (script e a) (3 * List.length (model a)) = Some FinishConversion.
Proof.
  unfold script. rewrite nth_error_app2; rewrite scripts_from_length; [|lia].
  now rewrite Nat.sub_diag.
Qed.

Lemma set_status_at_neutral (k : nat) (s : Status) (m : list FileItem) :
  map neutral (set_status_at k s m) = map neutral m.
Proof.
  revert k. induction m as [|it m IH]; intros [|k]; cbn; try reflexivity.
  now rewrite IH.
Qed.

Lemma neutral_nth (m1 m2 : list FileItem) (i : nat) (it1 : FileItem) :
  map neutral m1 = map neutral m2 ->
  nth_error m1 i = Some it1 ->
  exists it2, nth_error m2 i = Some it2 /\ neutral it1 = neutral it2.
Proof.
  intros Hm H1. apply (map_nth_error neutral) in H1. rewrite Hm in H1.
  rewrite nth_error_map in H1.
  destruct (nth_error m2 i) as [it2|]; [|discriminate].
  cbn [option_map] in H1. exists it2. split; [reflexivity | congruence].
Qed.

(** The command of a row depends on its name and directories only, and
    on the override. *)
Lemma cmd_neutral (o : option string) (a a' : App) (it it' : FileItem) :
  custom_export_path a = custom_export_path a' ->
  neutral it = neutral it' ->
  cmd o a it = cmd o a' it'.
Proof.
  intros Ha Hn. unfold neutral in Hn. injection Hn as _ Hf Hp Hfp.
  unfold cmd, out_path, dest, base. now rewrite Ha, Hf, Hp, Hfp.
Qed.

Lemma rows_calls_length (e : Env) (a : App) :
  List.length (rows_calls e a) = List.length (model a).
Proof. unfold rows_calls. apply length_map. Qed.

Lemma Inv_rows_length (e : Env) (a0 : App) (r : Run) :
  Inv e a0 r -> List.length (model (self r)) = List.length (model a0).
Proof.
  intros I. rewrite <- (length_map neutral (model (self r))).
  rewrite (inv_rows _ _ _ I). apply length_map.
Qed.

Lemma Inv_start (e : Env) (a : App) : Inv e a (start_thread e a).
Proof.
  constructor; try reflexivity. cbn. lia.
Qed.

Lemma emitted_idle_add (p : Pc) (cb : Callback) (r : Run) :
  emitted (set_pc p (idle_add cb r)) = emitted r ++ [cb].
Proof. unfold emitted. cbn. apply app_assoc. Qed.

Lemma nth_error_row (m : list FileItem) (i : nat) :
  i < List.length m -> exists it, nth_error m i = Some it.
Proof.
  intros H. destruct (nth_error m i) as [it|] eqn:E; [now exists it|].
  apply nth_error_None in E. lia.
Qed.

Lemma firstn_length_le (A : Type) (l : list A) (k : nat) :
  k <= List.length l -> List.length (firstn k l) = k.
Proof. intros H. rewrite length_firstn. lia. Qed.

(** A statement of the worker preserves the invariant. *)
Lemma Inv_worker_step (e : Env) (a0 : App) (r : Run) :
  Inv e a0 r -> Inv e a0 (worker_step e r).
Proof.
  intros I.
  pose proof (inv_openssl _ _ _ I) as Ho.
  pose proof (inv_count _ _ _ I) as Hc.
  pose proof (inv_export _ _ _ I) as Hx.
  pose proof (inv_rows _ _ _ I) as Hr.
  pose proof (inv_pc _ _ _ I) as Hok.
  pose proof (inv_calls _ _ _ I) as Hcalls.
  pose proof (inv_emitted _ _ _ I) as Hem.
  pose proof (inv_bar _ _ _ I) as Hbar.
  unfold pc_ok in Hok. unfold worker_step.
  destruct (pc r) as [i|i|i|i s|i| | | ] eqn:Hpc;
    cbn [called_count emitted_count] in Hcalls, Hem.
  - (* AtFetch *)
    rewrite Hc. destruct (Nat.ltb_spec i (List.length (model a0))) as [Hlt|Hge].
    + constructor;
        [exact Ho | exact Hc | exact Hx | exact Hr | | exact Hcalls
         | exact Hem | exact Hbar].
      unfold pc_ok. cbn. auto.
    + assert (i = List.length (model a0)) as -> by lia.
      constructor;
        [exact Ho | exact Hc | exact Hx | exact Hr | | exact Hcalls
         | exact Hem | exact Hbar].
      exact Logic.I.
  - (* AtProcessing *)
    destruct Hok as [Hlt Hit].
    destruct (nth_error_row _ _ Hlt) as [it Hrow].
    destruct (script_nth e a0 i it Hrow) as (H0 & _ & _).
    constructor;
      [exact Ho | exact Hc | exact Hx | exact Hr | | exact Hcalls | | exact Hbar].
    + unfold pc_ok. cbn. auto.
    + rewrite emitted_idle_add, Hem. cbn [pc set_pc emitted_count].
      rewrite Nat.add_1_r. symmetry. now apply firstn_snoc.
  - (* AtRun *)
    destruct Hok as [Hlt Hit].
    unfold item_row. rewrite Hit.
    assert (Hlen : i < List.length (model (self r)))
      by (rewrite (Inv_rows_length _ _ _ I); exact Hlt).
    destruct (nth_error_row _ _ Hlen) as [it' Hrow'].
    rewrite Hrow'.
    destruct (neutral_nth _ _ _ _ Hr Hrow') as (it & Hrow & Hn).
    assert (Hcmd : cmd (openssl r) (self r) it' = cmd (which_openssl e) a0 it)
      by (rewrite Ho; now apply cmd_neutral).
    assert (Hk : List.length (calls r) = i).
    { rewrite Hcalls. apply firstn_length_le. rewrite rows_calls_length. lia. }
    rewrite Hcmd, Hk.
    constructor;
      [exact Ho | exact Hc | exact Hx | exact Hr | | | exact Hem | exact Hbar].
    + unfold pc_ok. cbn [pc set_pc item record_call].
      split; [assumption|]. split; [assumption|]. now exists it.
    + cbn [pc set_pc calls record_call called_count].
      rewrite Hcalls. symmetry. apply firstn_snoc.
      unfold rows_calls. now apply map_nth_error.
  - (* AtStatus *)
    destruct Hok as (Hlt & Hit & it & Hrow & ->).
    destruct (script_nth e a0 i it Hrow) as (_ & H1 & _).
    constructor;
      [exact Ho | exact Hc | exact Hx | exact Hr | | exact Hcalls | | exact Hbar].
    + unfold pc_ok. cbn. auto.
    + rewrite emitted_idle_add, Hem. cbn [pc set_pc emitted_count].
      replace (3 * i + 2) with (S (3 * i + 1)) by lia.
      symmetry. now apply firstn_snoc.
  - (* AtFraction *)
    destruct Hok as [Hlt Hit].
    destruct (nth_error_row _ _ Hlt) as [it Hrow].
    destruct (script_nth e a0 i it Hrow) as (_ & _ & H2).
    constructor;
      [exact Ho | exact Hc | exact Hx | exact Hr | | exact Hcalls | | exact Hbar].
    + unfold pc_ok. cbn. lia.
    + rewrite emitted_idle_add, Hem, Hc. cbn [pc set_pc emitted_count].
      replace (3 * S i) with (S (3 * i + 2)) by lia.
      symmetry. now apply firstn_snoc.
  - (* AtFinish *)
    constructor;
      [exact Ho | exact Hc | exact Hx | exact Hr | | exact Hcalls | | exact Hbar].
    + exact Logic.I.
    + rewrite emitted_idle_add, Hem. cbn [pc set_pc emitted_count].
      rewrite Nat.add_1_r. symmetry. apply firstn_snoc, script_nth_finish.
  - exact I.
  - contradiction.
Qed.

Lemma fractions_of_app (l1 l2 : list Callback) :
  fractions_of (l1 ++ l2) = fractions_of l1 ++ fractions_of l2.
Proof. unfold fractions_of. apply flat_map_app. Qed.

(** A callback run by the main loop preserves the invariant. *)
Lemma Inv_main_step (e : Env) (a0 : App) (r : Run) :
  Inv e a0 r -> Inv e a0 (main_step r).
Proof.
  intros I. unfold main_step.
  destruct (idle r) as [|cb rest] eqn:Hidle; [exact I|].
  pose proof (inv_openssl _ _ _ I) as Ho.
  pose proof (inv_count _ _ _ I) as Hc.
  pose proof (inv_export _ _ _ I) as Hx.
  pose proof (inv_rows _ _ _ I) as Hr.
  pose proof (inv_pc _ _ _ I) as Hok.
  pose proof (inv_calls _ _ _ I) as Hcalls.
  pose proof (inv_emitted _ _ _ I) as Hem.
  pose proof (inv_bar _ _ _ I) as Hbar.
  assert (Hem' : dispatched r ++ [cb] ++ rest
                 = firstn (emitted_count (List.length (model a0)) (pc r))
                          (script e a0)).
  { rewrite <- Hem. unfold emitted. now rewrite Hidle. }
  rewrite app_assoc in Hem'.
  destruct cb as [s|q| ]; cbn [dispatch].
  - destruct (item (take_idle (SetItemStatus s) rest r)) as [k|] eqn:Hk.
    + constructor;
        [exact Ho | exact Hc | exact Hx | | exact Hok | exact Hcalls
         | exact Hem' | ].
      * cbn [self set_self take_idle set_model set_queue model].
        now rewrite set_status_at_neutral.
      * unfold shown. cbn [dispatched set_self take_idle].
        rewrite fractions_of_app. cbn [fractions_of flat_map].
        rewrite app_nil_r. exact Hbar.
    + constructor;
        [exact Ho | exact Hc | exact Hx | exact Hr | exact Hok | exact Hcalls
         | exact Hem' | ].
      unfold shown. cbn [dispatched take_idle].
      rewrite fractions_of_app. cbn [fractions_of flat_map].
      rewrite app_nil_r. exact Hbar.
  - constructor;
      [exact Ho | exact Hc | exact Hx | exact Hr | exact Hok | exact Hcalls
       | exact Hem' | ].
    unfold shown. cbn [dispatched set_self take_idle self set_fraction progress_bar].
    rewrite fractions_of_app. cbn [fractions_of flat_map List.app].
    now rewrite last_last.
  - constructor;
      [exact Ho | exact Hc | exact Hx | exact Hr | exact Hok | exact Hcalls
       | exact Hem' | ].
    unfold shown. cbn [dispatched set_self take_idle].
    rewrite fractions_of_app. cbn [fractions_of flat_map].
    rewrite app_nil_r. exact Hbar.
Qed.

Lemma Inv_exec (e : Env) (a0 : App) (sched : list Turn) (r : Run) :
  Inv e a0 r -> Inv e a0 (exec e sched r).
Proof.
  revert r. induction sched as [|t sched IH]; intros r I; [exact I|].
  cbn [exec fold_left]. apply IH.
  destruct t; [now apply Inv_worker_step | now apply Inv_main_step].
Qed.

Lemma exec_app (e : Env) (s1 s2 : list Turn) (r : Run) :
  exec e (s1 ++ s2) r = exec e s2 (exec e s1 r).
Proof. unfold exec. apply fold_left_app. Qed.

(** *** The fractions of the script *)



Lemma scripts_from_no_finish (e : Env) (a : App) (k : nat)
      (rows : list FileItem) :
  ~ In FinishConversion (scripts_from e a k rows).
Proof.
  revert k. induction rows as [|it rows IH]; intros k; cbn [scripts_from].
  - intros [].
  - intros H. apply in_app_or in H as [H|H]; [|now apply (IH (S k))].
    cbn in H. intuition discriminate.
Qed.

(** A list that ends with its only [FinishConversion] splits at it in
    one way. *)
Lemma finish_is_last (s d x : list Callback) :
  ~ In FinishConversion s ->
  s ++ [FinishConversion] = d ++ FinishConversion :: x ->
  d = s /\ x = [].
Proof.
  revert d. induction s as [|c s IH]; intros d Hs H.
  - destruct d as [|c d]; cbn in H.
    + injection H as <-. now split.
    + injection H as _ H. now destruct d.
  - destruct d as [|c' d]; cbn in H.
    + injection H as -> _. elim Hs. now left.
    + injection H as <- H.
      destruct (IH d) as [-> ->]; [|assumption|now split].
      intros Hin. apply Hs. now right.
Qed.

Lemma completed_In (r : Run) :
  completed r = true <-> In FinishConversion (dispatched r).
Proof.
  unfold completed. rewrite existsb_exists. split.
  - intros [cb [Hin Hf]]. now destruct cb.
  - intros H. now exists FinishConversion.
Qed.

(** When [finish_conversion] has run, the main loop has run the whole
    script, nothing is left in the idle queue and the worker has left
    its function. *)
Lemma Inv_completed (e : Env) (a0 : App) (r : Run) :
  Inv e a0 r -> completed r = true ->
  dispatched r = script e a0 /\ idle r = [] /\ pc r = Exited.
Proof.
  intros I Hc. apply completed_In in Hc.
  apply in_split in Hc as (d1 & d2 & Hd).
  pose proof (inv_emitted _ _ _ I) as Hem. unfold emitted in Hem.
  set (k := emitted_count (List.length (model a0)) (pc r)) in *.
  pose proof (firstn_skipn k (script e a0)) as Hs.
  rewrite <- Hem, Hd in Hs. unfold script in Hs at 2.
  rewrite <- !app_assoc in Hs. cbn [List.app] in Hs.
  symmetry in Hs.
  apply finish_is_last in Hs as [-> Hx]; [|apply scripts_from_no_finish].
  apply app_eq_nil in Hx as [-> Hx]. apply app_eq_nil in Hx as [Hi Hsk].
  split; [exact Hd|]. split; [exact Hi|].
  assert (Hl : List.length (skipn k (script e a0)) = 0) by now rewrite Hsk.
  rewrite length_skipn, script_length in Hl.
  pose proof (inv_pc _ _ _ I) as Hok. unfold pc_ok in Hok.
  subst k. destruct (pc r); cbn [emitted_count] in Hl;
    try reflexivity; try contradiction; lia.
Qed.

(** *** Order and end of the fractions *)

Lemma fraction_le (k k' n : nat) : k <= k' -> (fraction k n <= fraction k' n)%Q.
Proof.
  intros H. unfold fraction, Qle. cbn [Qnum Qden].
  apply Z.mul_le_mono_nonneg_r; lia.
Qed.

Lemma fraction_full (n : nat) : 1 <= n -> (fraction n n == 1)%Q.
Proof.
  intros H. unfold fraction, Qeq. cbn [Qnum Qden].
  rewrite <- (positive_nat_Z (Pos.of_nat n)), Nat2Pos.id by lia. lia.
Qed.

Lemma fractions_nondecreasing (n i m : nat) :
  nondecreasing (map (fun k => fraction (S k) n) (seq i m)).
Proof.
  revert i. induction m as [|m IH]; intros i; [exact Logic.I|].
  cbn [seq map nondecreasing]. specialize (IH (S i)).
  destruct m as [|m]; [exact Logic.I|].
  cbn [seq map] in *. split; [apply fraction_le; lia | exact IH].
Qed.



(** *** Every run can be completed *)

Lemma steps_left_worker (e : Env) (a0 : App) (r : Run) :
  Inv e a0 r ->
  steps_left (List.length (model a0)) (pc (worker_step e r))
  = steps_left (List.length (model a0)) (pc r) - 1.
Proof.
  intros I.
  pose proof (inv_count _ _ _ I) as Hc.
  pose proof (inv_pc _ _ _ I) as Hok.
  pose proof (Inv_rows_length _ _ _ I) as Hlen.
  unfold pc_ok in Hok. unfold worker_step.
  destruct (pc r) as [i|i|i|i s|i| | | ] eqn:Hpc; cbn [steps_left].
  - rewrite Hc. destruct (Nat.ltb_spec i (List.length (model a0)));
      cbn [pc set_pc steps_left]; lia.
  - cbn [pc set_pc steps_left]. lia.
  - destruct Hok as [Hlt Hit]. unfold item_row. rewrite Hit.
    destruct (nth_error_row (model (self r)) i) as [it ->]; [lia|].
    cbn [pc set_pc steps_left]. lia.
  - cbn [pc set_pc steps_left]. lia.
  - cbn [pc set_pc steps_left]. lia.
  - reflexivity.
  - rewrite Hpc. reflexivity.
  - contradiction.
Qed.

Lemma steps_left_exited (e : Env) (a0 : App) (r : Run) :
  Inv e a0 r ->
  steps_left (List.length (model a0)) (pc r) = 0 -> pc r = Exited.
Proof.
  intros I. pose proof (inv_pc _ _ _ I) as Hok. unfold pc_ok in Hok.
  destruct (pc r); cbn [steps_left]; try reflexivity; try contradiction; lia.
Qed.

Lemma steps_left_bound (a0 : App) (r : Run) :
  steps_left (List.length (model a0)) (pc r) <= 5 * List.length (model a0) + 2.
Proof. destruct (pc r); cbn [steps_left]; lia. Qed.

Lemma worker_turns (e : Env) (a0 : App) (k : nat) (r : Run) :
  Inv e a0 r ->
  steps_left (List.length (model a0)) (pc (exec e (repeat WorkerTurn k) r))
  = steps_left (List.length (model a0)) (pc r) - k.
Proof.
  revert r. induction k as [|k IH]; intros r I; cbn [repeat exec fold_left].
  - lia.
  - fold (exec e (repeat WorkerTurn k) (step e r WorkerTurn)). cbn [step].
    rewrite IH by now apply Inv_worker_step.
    rewrite (steps_left_worker _ _ _ I). lia.
Qed.

Lemma dispatch_queues (cb : Callback) (r : Run) :
  dispatched (dispatch cb r) = dispatched r /\
  idle (dispatch cb r) = idle r /\
  pc (dispatch cb r) = pc r.
Proof.
  destruct cb as [s|q| ]; cbn [dispatch]; [destruct (item r)|..];
    repeat split.
Qed.

Lemma main_turns (e : Env) (m : nat) (r : Run) :
  let r' := exec e (repeat MainTurn m) r in
  dispatched r' = dispatched r ++ firstn m (idle r) /\
  idle r' = skipn m (idle r) /\
  pc r' = pc r.
Proof.
  revert r. induction m as [|m IH]; intros r; cbn zeta.
  - cbn. now rewrite app_nil_r.
  - cbn [repeat exec fold_left step].
    fold (exec e (repeat MainTurn m) (main_step r)).
    destruct (IH (main_step r)) as (Hd & Hi & Hp). cbn zeta in Hd, Hi, Hp.
    rewrite Hd, Hi, Hp. unfold main_step.
    destruct (idle r) as [|cb rest] eqn:E.
    + rewrite E. destruct m; cbn; repeat split.
    + destruct (dispatch_queues cb (take_idle cb rest r)) as (Hd' & Hi' & Hp').
      rewrite Hd', Hi', Hp'. cbn [dispatched idle pc take_idle firstn skipn].
      rewrite <- app_assoc. repeat split.
Qed.

(** Whatever has happened so far, letting the worker finish and the main
    loop empty the idle queue completes the run. *)
Lemma late_completes (e : Env) (a0 : App) (r : Run) :
  Inv e a0 r ->
  let r' := exec e (late (List.length (model a0))) r in
  completed r' = true /\ pc r' = Exited /\ idle r' = [].
Proof.
  intros I. cbn zeta. unfold late. rewrite exec_app.
  set (n := List.length (model a0)).
  set (r1 := exec e (repeat WorkerTurn (5 * n + 2)) r).
  assert (I1 : Inv e a0 r1) by now apply Inv_exec.
  assert (Hpc : pc r1 = Exited).
  { apply (steps_left_exited e a0 r1 I1). unfold r1. fold n.
    rewrite (worker_turns e a0 _ r I). fold n.
    pose proof (steps_left_bound a0 r). fold n in H. lia. }
  pose proof (inv_emitted _ _ _ I1) as Hem. rewrite Hpc in Hem.
  cbn [emitted_count] in Hem. fold n in Hem.
  rewrite firstn_all2 in Hem by (rewrite script_length; fold n; lia).
  destruct (main_turns e (3 * n + 1) r1) as (Hd & Hi & Hp).
  cbn zeta in Hd, Hi, Hp.
  assert (Hlen : List.length (idle r1) <= 3 * n + 1).
  { assert (H : List.length (emitted r1) = 3 * n + 1)
      by (rewrite Hem; apply script_length).
    unfold emitted in H. rewrite length_app in H. lia. }
  rewrite firstn_all2 in Hd by exact Hlen.
  rewrite skipn_all2 in Hi by exact Hlen.
  split; [|split; [congruence | exact Hi]].
  apply completed_In. rewrite Hd. fold (emitted r1). rewrite Hem.
  unfold script. apply in_or_app. right. now left.
Qed.

Lemma Inv_on_convert_clicked (e : Env) (a : App) :
  Inv e (set_fraction 0%Q (set_btn_convert false a)) (on_convert_clicked e a).
Proof. apply Inv_start. Qed.

(** ** The progress fractions of a run *)



Example fractions_of_three_rows :
  fractions_from 0 3 = [1 # 3; 2 # 3; 3 # 3]%Q.
Proof. reflexivity. Qed.

Example shown_under_three_schedules :
  let a := add_all ["/a/one.p7m"; "/a/two.p7m"] (do_activate healthy) in
  let r0 := on_convert_clicked healthy a in
  progress_bar (self r0) = 0%Q /\
  shown (exec healthy (prompt 2) r0) = [1 # 2; 2 # 2]%Q /\
  shown (exec healthy (late 2) r0) = [1 # 2; 2 # 2]%Q /\
  shown (exec healthy one_behind r0) = [1 # 2; 2 # 2]%Q /\
  shown (exec healthy (firstn 9 one_behind) r0) = [1 # 2]%Q.
Proof. repeat split. Qed.

(** ** The verifier is run for every row *)

(** C7, as the claim states it, fails.  No directory can be written to,
    so the output directory [/ro] of the queued file is not writable;
    still the worker gives the command for that file, with the output
    path inside [/ro], to [subprocess.run]. *)
Lemma unwritable_directory_still_invoked :
  let a := add_file_to_queue "/ro/report.p7m" (do_activate read_only) in
  let r := exec read_only (prompt 1) (on_convert_clicked read_only a) in
  map (dest a) (model a) = ["/ro"] /\
  writable_dir read_only "/ro" = false /\
  calls r
  = [mkCmd (Some "/usr/bin/openssl")
           ["smime"; "-verify"; "-noverify"; "-binary"; "-inform"; "DER";
            "-in"; "/ro/report.p7m"; "-out"; "/ro/report.pdf"]] /\
  completed r = true.
Proof. repeat split. Qed.

(** C7, amended.  A run looks at no directory.  Under any schedule the
    commands run so far are an initial segment of the list that has one
    command per row, in queue order, each with the output path resolved
    for its row; when the worker has left its function, or
    [finish_conversion] has run, they are that whole list.  And every run
    gets there: from any point, letting the worker run to its end and the
    main loop empty the idle queue completes the run, with the verifier
    run exactly once for every row, whatever the environment says of the
    row's output directory.  Two environments that differ only in which
    directories are writable give the same run. *)
Theorem every_row_invoked (e : Env) (a : App) (sched : list Turn) :
  let n := List.length (model a) in
  let r := exec e sched (on_convert_clicked e a) in
  let r' := exec e (sched ++ late n) (on_convert_clicked e a) in
  (exists k, calls r = firstn k (rows_calls e a)) /\
  (pc r = Exited \/ completed r = true -> calls r = rows_calls e a) /\
  (completed r' = true /\ pc r' = Exited /\
   calls r' = rows_calls e a /\ List.length (calls r') = n) /\
  rows_calls e a
  = map (fun it =>
           mkCmd (which_openssl e)
                 ["smime"; "-verify"; "-noverify"; "-binary"; "-inform"; "DER";
                  "-in"; full_path it; "-out"; out_path a it])
        (model a) /\
  (forall w : string -> bool,
      let e' := mkEnv (stat e) (which_openssl e) (spawn e) w in
      exec e' sched (on_convert_clicked e' a) = r).
Proof.
  intros n r r'.
  set (a0 := set_fraction 0%Q (set_btn_convert false a)).
  assert (I : Inv e a0 r) by apply Inv_exec, Inv_on_convert_clicked.
  assert (Hall : forall x : Run,
             Inv e a0 x -> pc x = Exited -> calls x = rows_calls e a).
  { intros x Ix Hpc. pose proof (inv_calls _ _ _ Ix) as Hcalls.
    change (rows_calls e a0) with (rows_calls e a) in Hcalls.
    change (List.length (model a0)) with n in Hcalls.
    rewrite Hcalls, Hpc. cbn [called_count].
    apply firstn_all2. rewrite rows_calls_length. unfold n. lia. }
  split; [|split; [|split; [|split; [reflexivity|]]]].
  - pose proof (inv_calls _ _ _ I) as Hcalls.
    change (rows_calls e a0) with (rows_calls e a) in Hcalls.
    eexists; exact Hcalls.
  - intros H. apply (Hall r I).
    destruct H as [H|H]; [exact H|]. now apply (Inv_completed _ _ _ I H).
  - assert (I' : Inv e a0 r') by apply Inv_exec, Inv_on_convert_clicked.
    destruct (late_completes e a0 r I) as (Hc & Hpc & _).
    change (List.length (model a0)) with n in Hc, Hpc.
    fold r in Hc, Hpc. unfold r in Hc, Hpc. rewrite <- exec_app in Hc, Hpc.
    fold r' in Hc, Hpc.
    split; [exact Hc|]. split; [exact Hpc|].
    rewrite (Hall r' I' Hpc). split; [reflexivity|].
    apply rows_calls_length.
  - intros w e'. unfold r. destruct e as [st wh sp w0]. reflexivity.
Qed.

Lemma every_row_invoked_witness :
  let a := add_all ["/ro/report.p7m"; "/ro/sub/other.p7m"]
                   (do_activate read_only) in
  let r := exec read_only one_behind (on_convert_clicked read_only a) in
  map (fun it => writable_dir read_only (dest a it)) (model a) = [false; false] /\
  (pc r = Exited \/ completed r = true) /\
  calls r = rows_calls read_only a /\
  map arguments (calls r)
  = [["smime"; "-verify"; "-noverify"; "-binary"; "-inform"; "DER";
      "-in"; "/ro/report.p7m"; "-out"; "/ro/report.pdf"];
     ["smime"; "-verify"; "-noverify"; "-binary"; "-inform"; "DER";
      "-in"; "/ro/sub/other.p7m"; "-out"; "/ro/sub/other.pdf"]].
Proof.
  split; [reflexivity|]. split; [left; reflexivity|].
  destruct (every_row_invoked read_only
              (add_all ["/ro/report.p7m"; "/ro/sub/other.p7m"]
                       (do_activate read_only))
              one_behind) as (_ & H & _).
  split; [apply H; left; reflexivity | reflexivity].
Defined.

(** ** The paths of the rows at every moment *)

Lemma add_keeps_paths (p : string) (a : App) :
  map full_path (model a) = file_queue a -> NoDup (file_queue a) ->
  map full_path (model (add_file_to_queue p a)) = file_queue (add_file_to_queue p a)
  /\ NoDup (file_queue (add_file_to_queue p a)).
Proof.
  intros Hm Hn. unfold add_file_to_queue.
  destruct (in_queue p (file_queue a)) eqn:Hp; [now split|].
  cbn [model file_queue update_ui_state set_queue].
  rewrite map_app, Hm. split; [reflexivity|].
  apply NoDup_app; [assumption | now repeat constructor |].
  intros x Hx [<-|[]]. apply in_queue_In in Hx. congruence.
Qed.

Lemma add_all_keeps_paths (paths : list string) (a : App) :
  map full_path (model a) = file_queue a -> NoDup (file_queue a) ->
  map full_path (model (add_all paths a)) = file_queue (add_all paths a)
  /\ NoDup (file_queue (add_all paths a)).
Proof.
  revert a. induction paths as [|p paths IH]; intros a Hm Hn; [now split|].
  cbn [add_all fold_left]. fold (add_all paths (add_file_to_queue p a)).
  destruct (add_keeps_paths p a Hm Hn). now apply IH.
Qed.

Lemma set_status_at_full_path (k : nat) (s : Status) (m : list FileItem) :
  map full_path (set_status_at k s m) = map full_path m.
Proof.
  revert k. induction m as [|it m IH]; intros [|k]; cbn; try reflexivity.
  now rewrite IH.
Qed.

Lemma step_keeps_paths (e : Env) (r : Run) (t : Turn) :
  file_queue (self (step e r t)) = file_queue (self r) /\
  map full_path (model (self (step e r t))) = map full_path (model (self r)).
Proof.
  destruct t; cbn [step].
  - unfold worker_step. destruct (pc r); try (now split).
    + destruct (_ <? _); now split.
    + destruct (item_row r); now split.
  - unfold main_step. destruct (idle r) as [|cb rest]; [now split|].
    destruct cb as [s|q| ]; cbn [dispatch]; try (now split).
    destruct (item (take_idle (SetItemStatus s) rest r)); [|now split].
    cbn [self set_self set_model set_queue file_queue model take_idle].
    now rewrite set_status_at_full_path.
Qed.

Lemma exec_keeps_paths (e : Env) (sched : list Turn) (r : Run) :
  file_queue (self (exec e sched r)) = file_queue (self r) /\
  map full_path (model (self (exec e sched r))) = map full_path (model (self r)).
Proof.
  revert r. induction sched as [|t sched IH]; intros r; [now split|].
  cbn [exec fold_left]. fold (exec e sched (step e r t)).
  destruct (IH (step e r t)) as [-> ->]. apply step_keeps_paths.
Qed.

(** In every state of the application the rows show the paths of the
    queue, in order, and no path twice. *)
Lemma reachable_paths_unique (e : Env) (a : App) :
  Reachable e a ->
  map full_path (model a) = file_queue a /\ NoDup (file_queue a).
Proof.
  induction 1 as [|p a _ [Hm Hn]|paths a _ [Hm Hn]|a _ _|d a _ IH
                 |sched a r _ [Hm Hn] Hclick].
  - unfold do_activate, check_openssl.
    destruct (which_openssl e); split; cbn; constructor.
  - now apply add_keeps_paths.
  - destruct (process_added_items_queue e paths a) as [-> ->].
    now apply add_all_keeps_paths.
  - split; cbn; constructor.
  - exact IH.
  - unfold click_convert in Hclick.
    destruct (btn_convert a); [|discriminate]. injection Hclick as <-.
    destruct (exec_keeps_paths e sched (on_convert_clicked e a)) as [-> ->].
    now split.
Qed.

(** ** Prompt dispatch *)

Lemma set_status_at_twice (k : nat) (s s' : Status) (m : list FileItem) :
  set_status_at k s (set_status_at k s' m) = set_status_at k s m.
Proof.
  revert k. induction m as [|it m IH]; intros [|k]; cbn; try reflexivity.
  now rewrite IH.
Qed.

Lemma settle_length (e : Env) (a : App) (k : nat) (rows : list FileItem) :
  List.length (settle e a k rows) = List.length rows.
Proof.
  revert k. induction rows as [|it rows IH]; intros k; cbn;
    [reflexivity | now rewrite IH].
Qed.

(** Giving row [i] the status of its own outcome settles one more row. *)
Lemma settle_next (e : Env) (a : App) (rows : list FileItem) :
  forall k i it,
    nth_error rows i = Some it ->
    set_status_at i (verdict_at e a (k + i) it)
                  (firstn i (settle e a k rows) ++ skipn i rows)
    = firstn (S i) (settle e a k rows) ++ skipn (S i) rows.
Proof.
  induction rows as [|x rows IH]; intros k [|i] it H; try discriminate.
  - cbn in H. injection H as ->. cbn. now rewrite Nat.add_0_r.
  - cbn [nth_error] in H.
    cbn [settle firstn skipn List.app set_status_at].
    replace (k + S i) with (S k + i) by lia.
    now rewrite (IH (S k) i it H).
Qed.

Lemma settled_to_all (e : Env) (a : App) :
  settled_to e a (List.length (model a)) = settle e a 0 (model a).
Proof.
  unfold settled_to.
  rewrite firstn_all2 by (rewrite settle_length; lia).
  rewrite skipn_all. apply app_nil_r.
Qed.

Lemma settle_statuses (e : Env) (a : App) (k : nat) (rows : list FileItem) :
  map status (settle e a k rows) = verdicts_from e a k rows.
Proof.
  revert k. induction rows as [|it rows IH]; intros k; cbn;
    [reflexivity | now rewrite IH].
Qed.

Lemma verdicts_terminal (e : Env) (a : App) (k : nat) (rows : list FileItem) :
  Forall (fun s => terminal s = true) (verdicts_from e a k rows).
Proof.
  revert k. induction rows as [|it rows IH]; intros k; cbn; constructor.
  - unfold verdict_at, verdict. now destruct (success _).
  - apply IH.
Qed.

(** Under prompt dispatch the idle queue is empty after every turn of
    the main loop and the rows are those of [prompt_rows]. *)
Lemma prompt_turn_rows (e : Env) (a0 : App) (r : Run) :
  Inv e a0 r ->
  idle r = [] ->
  model (self r) = prompt_rows e a0 (pc r) ->
  idle (prompt_turn e r) = [] /\
  model (self (prompt_turn e r)) = prompt_rows e a0 (pc (prompt_turn e r)) /\
  pc (prompt_turn e r) = pc (worker_step e r).
Proof.
  intros I Hidle Hrows. unfold prompt_turn.
  pose proof (Inv_worker_step _ _ _ I) as I'.
  pose proof (inv_pc _ _ _ I') as Hok'. unfold pc_ok in Hok'.
  pose proof (inv_count _ _ _ I) as Hc.
  pose proof (inv_pc _ _ _ I) as Hok. unfold pc_ok in Hok.
  pose proof (Inv_rows_length _ _ _ I) as Hlen.
  revert I' Hok'. unfold worker_step.
  destruct (pc r) as [i|i|i|i s|i| | | ] eqn:Hpc; cbn [prompt_rows] in Hrows.
  - rewrite Hc. destruct (Nat.ltb_spec i (List.length (model a0))) as [Hlt|Hge];
      intros _ _; unfold main_step; cbn [idle set_pc set_item]; rewrite Hidle;
      cbn [self pc set_pc set_item prompt_rows].
    + now repeat split.
    + assert (i = List.length (model a0)) as -> by lia.
      rewrite settled_to_all in Hrows. now repeat split.
  - intros _ _. destruct Hok as [Hlt Hit]. unfold main_step.
    cbn [idle set_pc idle_add]. rewrite Hidle. cbn [List.app dispatch].
    cbn [item take_idle set_pc idle_add]. rewrite Hit.
    cbn [idle self pc set_self set_model set_queue model take_idle set_pc
         idle_add prompt_rows].
    rewrite Hrows. now repeat split.
  - destruct Hok as [Hlt Hit]. unfold item_row. rewrite Hit.
    destruct (nth_error_row (model (self r)) i) as [it ->]; [lia|].
    intros _ _. unfold main_step. cbn [idle set_pc record_call].
    rewrite Hidle. cbn [self pc set_pc record_call prompt_rows].
    now repeat split.
  - intros _ _. destruct Hok as (Hlt & Hit & it & Hrow & ->).
    unfold main_step. cbn [idle set_pc idle_add]. rewrite Hidle.
    cbn [List.app dispatch]. cbn [item take_idle set_pc idle_add]. rewrite Hit.
    cbn [idle self pc set_self set_model set_queue model take_idle set_pc
         idle_add prompt_rows].
    rewrite Hrows, set_status_at_twice. unfold settled_to.
    rewrite <- (settle_next e a0 (model a0) 0 i it Hrow).
    now repeat split.
  - intros _ _. unfold main_step. cbn [idle set_pc idle_add]. rewrite Hidle.
    cbn [List.app dispatch].
    cbn [idle self pc set_self set_fraction model take_idle set_pc idle_add
         prompt_rows].
    now repeat split.
  - intros _ _. unfold main_step. cbn [idle set_pc idle_add]. rewrite Hidle.
    cbn [List.app dispatch].
    cbn [idle self pc set_self finish_conversion set_btn_convert set_lbl_status
         model take_idle set_pc idle_add prompt_rows].
    now repeat split.
  - intros _ _. unfold main_step. rewrite Hidle, Hpc. now repeat split.
  - contradiction.
Qed.

Lemma exec_prompt (e : Env) (k : nat) (r : Run) :
  exec e (List.concat (repeat [WorkerTurn; MainTurn] k)) r
  = Nat.iter k (prompt_turn e) r.
Proof.
  revert r. induction k as [|k IH]; intros r; [reflexivity|].
  cbn [repeat List.concat]. rewrite exec_app, IH.
  cbn [exec fold_left step]. fold (prompt_turn e r).
  symmetry. apply Nat.iter_succ_r.
Qed.

Lemma Inv_prompt_turn (e : Env) (a0 : App) (r : Run) :
  Inv e a0 r -> Inv e a0 (prompt_turn e r).
Proof. intros I. now apply Inv_main_step, Inv_worker_step. Qed.

Lemma main_step_pc (r : Run) : pc (main_step r) = pc r.
Proof.
  unfold main_step. destruct (idle r) as [|cb rest]; [reflexivity|].
  now destruct (dispatch_queues cb (take_idle cb rest r)) as (_ & _ & ->).
Qed.

Lemma prompt_turns (e : Env) (a0 : App) (k : nat) (r : Run) :
  Inv e a0 r ->
  idle r = [] ->
  model (self r) = prompt_rows e a0 (pc r) ->
  let r' := Nat.iter k (prompt_turn e) r in
  Inv e a0 r' /\ idle r' = [] /\
  model (self r') = prompt_rows e a0 (pc r') /\
  steps_left (List.length (model a0)) (pc r')
  = steps_left (List.length (model a0)) (pc r) - k.
Proof.
  intros I Hidle Hrows. induction k as [|k IH]; cbn zeta.
  - change (Nat.iter 0 (prompt_turn e) r) with r.
    split; [exact I|]. split; [exact Hidle|]. split; [exact Hrows|]. lia.
  - rewrite Nat.iter_succ. cbn zeta in IH. destruct IH as (I' & Hi & Hm & Hs).
    destruct (prompt_turn_rows e a0 _ I' Hi Hm) as (Hi' & Hm' & Hp').
    split; [now apply Inv_prompt_turn|]. split; [exact Hi'|].
    split; [exact Hm'|].
    rewrite Hp', (steps_left_worker e a0 _ I'), Hs. lia.
Qed.

Lemma verdicts_from_export (e : Env) (a a' : App) (k : nat)
      (rows : list FileItem) :
  custom_export_path a = custom_export_path a' ->
  verdicts_from e a k rows = verdicts_from e a' k rows.
Proof.
  intros H. revert k. induction rows as [|it rows IH]; intros k; cbn;
    [reflexivity|].
  rewrite IH. unfold verdict_at, outcome_at.
  now rewrite (cmd_neutral (which_openssl e) a a' it it H eq_refl).
Qed.

(** With prompt dispatch, every row of a run ends with the status of its
    own outcome, [Done] or [Error], and the run is completed. *)
Lemma prompt_dispatch_settles (e : Env) (a : App) :
  let r := exec e (prompt (List.length (model a))) (on_convert_clicked e a) in
  completed r = true /\
  statuses r = verdicts_from e a 0 (model a) /\
  Forall (fun s => terminal s = true) (statuses r).
Proof.
  cbn zeta. unfold prompt. rewrite exec_prompt.
  set (a0 := set_fraction 0%Q (set_btn_convert false a)).
  set (n := List.length (model a)).
  destruct (prompt_turns e a0 (5 * n + 2) (on_convert_clicked e a))
    as (I & Hi & Hm & Hs).
  - apply Inv_on_convert_clicked.
  - reflexivity.
  - reflexivity.
  - cbn zeta in I, Hi, Hm, Hs.
    set (r := Nat.iter (5 * n + 2) (prompt_turn e) (on_convert_clicked e a)) in *.
    assert (Hpc : pc r = Exited).
    { apply (steps_left_exited e a0 r I). rewrite Hs.
      change (List.length (model a0)) with n. cbn [pc on_convert_clicked
        start_thread steps_left]. lia. }
    assert (Hst : statuses r = verdicts_from e a 0 (model a)).
    { unfold statuses. rewrite Hm, Hpc. cbn [prompt_rows].
      rewrite settle_statuses. now apply verdicts_from_export. }
    split; [|split; [exact Hst | rewrite Hst; apply verdicts_terminal]].
    apply completed_In.
    pose proof (inv_emitted _ _ _ I) as Hem. unfold emitted in Hem.
    rewrite Hi, app_nil_r, Hpc in Hem. cbn [emitted_count] in Hem.
    rewrite firstn_all2 in Hem by (rewrite script_length; lia).
    rewrite Hem. unfold script. apply in_or_app. right. now left.
Qed.

(** ** The verdicts of a run *)














(** A spawn that fails and a process that exits with another status than
    0 both leave the row [Error]; only the first leaves a line in the
    log. *)
Example verdicts_of_failures :
  let a := add_file_to_queue "/a/b/report.p7m" built in
  let r := exec denied (prompt 1) (on_convert_clicked denied a) in
  let r' := exec read_only (prompt 1) (on_convert_clicked read_only a) in
  statuses r = [Error] /\
  log r = ["Conversion error: [Errno 13] Permission denied: '/usr/bin/openssl'"] /\
  statuses r' = [Error] /\
  log r' = [].
Proof. repeat split. Qed.

(** ** Rounding the fractions *)

Lemma map_nondecreasing (f : Q -> Q) (l : list Q) :
  (forall x y, (x <= y)%Q -> (f x <= f y)%Q) ->
  nondecreasing l -> nondecreasing (map f l).
Proof.
  intros Hf. induction l as [|x l IH]; [trivial|].
  destruct l as [|y l]; [trivial|].
  cbn [map nondecreasing] in *. intros [Hxy Hl]. split; [now apply Hf|].
  now apply IH.
Qed.

(** The program computes the fractions in floating point.  Whatever the
    rounding, as long as it keeps the order and returns 1 for an operand
    equal to 1, as the division of Python does, the rounded fractions
    never decrease and end with 1. *)
Lemma rounded_fractions (rnd : Q -> Q) (n : nat) :
  (forall x y, (x <= y)%Q -> (rnd x <= rnd y)%Q) ->
  (forall x, (x == 1)%Q -> rnd x = 1%Q) ->
  1 <= n ->
  nondecreasing (map rnd (fractions_from 0 n)) /\
  last (map rnd (fractions_from 0 n)) 0%Q = 1%Q.
Proof.
  intros Hmono Hone Hn. split.
  - apply map_nondecreasing; [assumption | apply fractions_nondecreasing].
  - unfold fractions_from. rewrite Nat.sub_0_r.
    destruct n as [|n]; [lia|].
    rewrite seq_S, !map_app. cbn [map Nat.add]. rewrite last_last.
    apply Hone, fraction_full. lia.
Qed.

(** * Further properties of the handlers *)

(** ** Clearing, adding and the Extract button *)

(** X1.  [on_clear_clicked] empties the queue and the rows from any
    state, also after a run: the count label reads "0 files ready" and
    the Extract button is insensitive, while the status line, the
    progress bar and the destination stay as they were; the paths added
    afterwards are numbered from one again. *)
Theorem clear_resets (a : App) (paths : list string) :
  let c := on_clear_clicked a in
  file_queue c = [] /\ model c = [] /\
  lbl_count c = "0 files ready" /\ btn_convert c = false /\
  lbl_status c = lbl_status a /\ progress_bar c = progress_bar a /\
  custom_export_path c = custom_export_path a /\
  file_queue (add_all paths c) = first_seen paths /\
  model (add_all paths c) = pending_rows_from 0 (first_seen paths).
Proof.
  cbn zeta. repeat (split; [reflexivity|]).
  apply add_all_from_empty; reflexivity.
Qed.

(** X2.  Adding a path that is not queued yet leaves the Extract button
    sensitive whatever it was before, so that a click starts a run: what
    [check_openssl] or [on_convert_clicked] disabled does not stay
    disabled.  The count label shows the new number of rows. *)
Theorem add_makes_convert_clickable (e : Env) (p : string) (a : App) :
  in_queue p (file_queue a) = false ->
  let a' := add_file_to_queue p a in
  btn_convert a' = true /\
  click_convert e a' = Some (on_convert_clicked e a') /\
  lbl_count a' = (Str.str (S (List.length (model a))) ++ " files ready")%string /\
  lbl_status a' = lbl_status a.
Proof.
  intros H. cbn zeta.
  assert (Hb : btn_convert (add_file_to_queue p a) = true).
  { unfold add_file_to_queue. rewrite H.
    cbn [btn_convert update_ui_state set_queue model].
    rewrite length_app. cbn [List.length]. apply Nat.ltb_lt. lia. }
  split; [exact Hb|]. split; [unfold click_convert; now rewrite Hb|].
  unfold add_file_to_queue. rewrite H.
  cbn [lbl_count lbl_status update_ui_state set_queue model].
  rewrite length_app. cbn [List.length]. rewrite Nat.add_1_r.
  split; reflexivity.
Qed.

Lemma add_makes_convert_clickable_witness :
  let a := self (exec no_openssl [WorkerTurn; WorkerTurn]
                      (on_convert_clicked no_openssl
                         (add_file_to_queue "/a/x.p7m" (do_activate no_openssl)))) in
  btn_convert a = false /\
  in_queue "/a/y.p7m" (file_queue a) = false /\
  let a' := add_file_to_queue "/a/y.p7m" a in
  btn_convert a' = true /\
  click_convert no_openssl a' = Some (on_convert_clicked no_openssl a') /\
  lbl_count a' = (Str.str (S (List.length (model a))) ++ " files ready")%string /\
  lbl_status a' = lbl_status a.
Proof.
  split; [reflexivity|]. split; [reflexivity|].
  apply (add_makes_convert_clickable no_openssl "/a/y.p7m"). reflexivity.
Defined.

Lemma add_all_queue_In (paths : list string) (a : App) (p : string) :
  In p (file_queue (add_all paths a)) <-> In p (file_queue a) \/ In p paths.
Proof.
  destruct (add_all_from paths a) as [Eq _]. cbn zeta in Eq. rewrite Eq.
  rewrite in_app_iff, first_seen_In, filter_In.
  split.
  - intros [H|[H _]]; [now left | now right].
  - intros [H|H]; [now left|].
    destruct (in_queue p (file_queue a)) eqn:E.
    + left. now apply in_queue_In.
    + right. split; [assumption | reflexivity].
Qed.

(** X3.  [on_open_multiple_finish] queues every path the dialog hands
    over, whatever its name: there is no test of the extension on this
    way into the queue.  The rows already there stay in front, and a
    dialog that ends with an error changes nothing. *)
Theorem dialog_paths_all_queued (paths : list string) (a : App) :
  let a' := on_open_multiple_finish (Some paths) a in
  Forall (fun p => In p (file_queue a')) paths /\
  (exists fresh,
      file_queue a' = file_queue a ++ fresh /\
      model a' = model a ++ pending_rows_from (List.length (file_queue a)) fresh) /\
  on_open_multiple_finish None a = a.
Proof.
  cbn zeta. cbn [on_open_multiple_finish]. split; [|split; [|reflexivity]].
  - apply Forall_forall. intros p Hp. apply add_all_queue_In. now right.
  - destruct (add_all_from paths a) as [Eq Em]. cbn zeta in Eq, Em.
    eexists. split; [exact Eq | exact Em].
Qed.

Example dialog_queues_a_pdf :
  file_queue (on_open_multiple_finish (Some ["/x/d.pdf"]) built) = ["/x/d.pdf"] /\
  discover small_fs ["/x/d.pdf"] = [].
Proof. split; reflexivity. Qed.

(** ** What [process_added_items] reports and changes *)

(** X4.  Input paths that are neither a directory nor a regular file
    with the extension (missing paths, other files) are passed over in
    silence: [process_added_items], and with it [on_drop] and
    [on_select_input_folder_finish], returns the state it was given, the
    status line included. *)
Theorem unusable_paths_change_nothing (e : Env) (paths : list string) (a : App) :
  Forall (fun p => isdir e p = false /\ isfile e p && is_p7m p = false) paths ->
  process_added_items e paths a = a /\
  on_drop e paths a = a /\
  Forall (fun p => on_select_input_folder_finish e (Some p) a = a) paths.
Proof.
  intros H.
  assert (Hd : forall l, Forall (fun p => isdir e p = false
                                          /\ isfile e p && is_p7m p = false) l ->
                         discover e l = []).
  { induction 1 as [|p l [Hdir Hfile] _ IH]; [reflexivity|].
    cbn [discover flat_map]. fold (discover e l). rewrite IH.
    unfold candidates. now rewrite Hfile, Hdir. }
  assert (Hp : forall l, discover e l = [] -> process_added_items e l a = a).
  { intros l Hl. unfold process_added_items. rewrite scan_paths_spec, Hl.
    reflexivity. }
  split; [apply Hp, Hd, H|]. split; [apply Hp, Hd, H|].
  rewrite Forall_forall in *. intros p Hin.
  cbn [on_select_input_folder_finish]. apply Hp, Hd.
  constructor; [now apply H | constructor].
Qed.

Lemma unusable_paths_change_nothing_witness :
  let paths := ["/missing.p7m"; "/x/d.pdf"] in
  Forall (fun p => isdir small_fs p = false
                   /\ isfile small_fs p && is_p7m p = false) paths /\
  process_added_items small_fs paths (do_activate small_fs) = do_activate small_fs.
Proof.
  intros paths.
  assert (H : Forall (fun p => isdir small_fs p = false
                               /\ isfile small_fs p && is_p7m p = false) paths)
    by (repeat constructor).
  split; [exact H|].
  apply (unusable_paths_change_nothing small_fs paths (do_activate small_fs) H).
Defined.

Lemma first_seen_length (l : list string) :
  List.length (first_seen l) <= List.length l.
Proof.
  induction l as [|x l IH]; cbn; [lia|].
  pose proof (remove_length_le string_dec (first_seen l) x). lia.
Qed.

Lemma pending_rows_from_length (k : nat) (q : list string) :
  List.length (pending_rows_from k q) = List.length q.
Proof.
  revert k. induction q as [|p q IH]; intros k; cbn;
    [reflexivity | now rewrite IH].
Qed.

(** X5.  When [process_added_items] finds candidates, the status line
    reports their number, "Added n files", counting every candidate
    whether or not it was queued already; the rows grow by the
    candidates that are new, so by at most that number, and none is
    removed. *)
Theorem added_counts_candidates (e : Env) (paths : list string) (a : App) :
  discover e paths <> [] ->
  let a' := process_added_items e paths a in
  let n := List.length (discover e paths) in
  lbl_status a' = ("Added " ++ Str.str n ++ " files")%string /\
  (exists fresh,
      model a' = model a ++ pending_rows_from (List.length (file_queue a)) fresh /\
      List.length fresh <= n /\
      forall p, In p fresh <-> In p (discover e paths) /\ ~ In p (file_queue a)).
Proof.
  intros Hne. cbn zeta. split.
  - unfold process_added_items. rewrite scan_paths_spec. cbn [fst snd Nat.add].
    destruct (discover e paths) as [|c cs]; [contradiction|]. reflexivity.
  - destruct (process_added_items_queue e paths a) as [_ Em]. rewrite Em.
    destruct (add_all_from (discover e paths) a) as [_ Em']. cbn zeta in Em'.
    eexists. split; [exact Em'|]. split.
    + etransitivity; [apply first_seen_length | apply filter_length_le].
    + intros p. rewrite first_seen_In, filter_In. cbv beta.
      rewrite negb_true_iff.
      pose proof (in_queue_In p (file_queue a)) as Hq.
      destruct (in_queue p (file_queue a)); intuition congruence.
Qed.

Lemma added_counts_candidates_witness :
  let a := add_file_to_queue "/x/c.P7m" (do_activate small_fs) in
  discover small_fs ["/x/c.P7m"; "/x/c.P7m"] <> [] /\
  lbl_status (process_added_items small_fs ["/x/c.P7m"; "/x/c.P7m"] a)
  = "Added 2 files" /\
  model (process_added_items small_fs ["/x/c.P7m"; "/x/c.P7m"] a) = model a.
Proof.
  intros a.
  assert (H : discover small_fs ["/x/c.P7m"; "/x/c.P7m"] <> []) by discriminate.
  split; [exact H|].
  destruct (added_counts_candidates small_fs ["/x/c.P7m"; "/x/c.P7m"] a H)
    as [Hl _].
  split; [exact Hl | reflexivity].
Defined.

(** X6.  Dropping paths on an empty queue queues each file found once,
    in the order of the traversal, however often the inputs overlap: the
    queue is the list of candidates with later repetitions left out, the
    rows are numbered from one and pending. *)
Theorem drop_queues_each_file_once (e : Env) (paths : list string) (start : App) :
  file_queue start = [] ->
  model start = [] ->
  let a := on_drop e paths start in
  file_queue a = first_seen (discover e paths) /\
  model a = pending_rows_from 0 (first_seen (discover e paths)) /\
  NoDup (file_queue a).
Proof.
  intros Hq Hm. cbn zeta. unfold on_drop.
  destruct (process_added_items_queue e paths start) as [-> ->].
  destruct (add_all_from_empty start (discover e paths) Hq Hm) as [-> ->].
  repeat split. apply first_seen_NoDup.
Qed.

Lemma drop_queues_each_file_once_witness :
  file_queue built = [] /\ model built = [] /\
  file_queue (on_drop small_fs ["/data/a.p7m"; "/data"; "/data"] built)
  = first_seen (discover small_fs ["/data/a.p7m"; "/data"; "/data"]) /\
  discover small_fs ["/data"; "/data"]
  = ["/data/a.p7m"; "/data/sub/B.P7M"; "/data/sub/pipe.p7m";
     "/data/a.p7m"; "/data/sub/B.P7M"; "/data/sub/pipe.p7m"] /\
  file_queue (on_drop small_fs ["/data"; "/data"] built)
  = ["/data/a.p7m"; "/data/sub/B.P7M"; "/data/sub/pipe.p7m"].
Proof.
  split; [reflexivity|]. split; [reflexivity|].
  split; [|split; reflexivity].
  apply (drop_queues_each_file_once small_fs
           ["/data/a.p7m"; "/data"; "/data"] built); reflexivity.
Defined.

(** ** What a run changes, and what it leaves alone *)

Lemma step_keeps_labels (e : Env) (r : Run) (t : Turn) :
  lbl_count (self (step e r t)) = lbl_count (self r) /\
  custom_export_path (self (step e r t)) = custom_export_path (self r) /\
  map neutral (model (self (step e r t))) = map neutral (model (self r)).
Proof.
  destruct t; cbn [step].
  - unfold worker_step. destruct (pc r); try (now repeat split).
    + destruct (_ <? _); now repeat split.
    + destruct (item_row r); now repeat split.
  - unfold main_step. destruct (idle r) as [|cb rest]; [now repeat split|].
    destruct cb as [s|q| ]; cbn [dispatch]; try (now repeat split).
    destruct (item (take_idle (SetItemStatus s) rest r)); [|now repeat split].
    cbn [self set_self set_model set_queue lbl_count custom_export_path model
         take_idle].
    now rewrite set_status_at_neutral.
Qed.

Lemma exec_keeps_labels (e : Env) (sched : list Turn) (r : Run) :
  lbl_count (self (exec e sched r)) = lbl_count (self r) /\
  custom_export_path (self (exec e sched r)) = custom_export_path (self r) /\
  map neutral (model (self (exec e sched r))) = map neutral (model (self r)).
Proof.
  revert r. induction sched as [|t sched IH]; intros r; [now repeat split|].
  cbn [exec fold_left]. fold (exec e sched (step e r t)).
  destruct (IH (step e r t)) as (-> & -> & ->). apply step_keeps_labels.
Qed.

(** X7.  A run, under any schedule and at any point, changes nothing of
    the rows but their status: their number, order, ids, names and paths
    are those the run started with, and so are the queue, the destination
    and the count label. *)
Theorem run_changes_statuses_only (e : Env) (a : App) (sched : list Turn) :
  let r := exec e sched (on_convert_clicked e a) in
  map neutral (model (self r)) = map neutral (model a) /\
  List.length (model (self r)) = List.length (model a) /\
  file_queue (self r) = file_queue a /\
  custom_export_path (self r) = custom_export_path a /\
  lbl_count (self r) = lbl_count a.
Proof.
  cbn zeta.
  destruct (exec_keeps_labels e sched (on_convert_clicked e a)) as (Hc & Hx & Hn).
  destruct (exec_keeps_paths e sched (on_convert_clicked e a)) as (Hq & _).
  split; [exact Hn|]. split; [|repeat split; assumption].
  rewrite <- (length_map neutral), Hn. apply length_map.
Qed.

Lemma completed_take_idle (cb : Callback) (rest : list Callback) (r : Run) :
  completed (take_idle cb rest r) = completed r || is_finish cb.
Proof.
  unfold completed. cbn [dispatched take_idle].
  rewrite existsb_app. cbn [existsb]. now rewrite orb_false_r.
Qed.

Lemma completed_dispatch (cb : Callback) (r : Run) :
  completed (dispatch cb r) = completed r.
Proof.
  unfold completed. now destruct (dispatch_queues cb r) as (-> & _).
Qed.

(** The Extract button and the status line follow [finish_conversion]. *)
Lemma step_button_label (e : Env) (l : string) (r : Run) (t : Turn) :
  btn_convert (self r) = completed r ->
  lbl_status (self r) = (if completed r then "Extraction Complete" else l) ->
  btn_convert (self (step e r t)) = completed (step e r t) /\
  lbl_status (self (step e r t))
  = (if completed (step e r t) then "Extraction Complete" else l).
Proof.
  intros Hb Hl. destruct t; cbn [step].
  - unfold worker_step. destruct (pc r); try (now split).
    + destruct (_ <? _); now split.
    + destruct (item_row r); now split.
  - unfold main_step. destruct (idle r) as [|cb rest]; [now split|].
    rewrite completed_dispatch, completed_take_idle.
    destruct cb as [s|q| ]; cbn [dispatch is_finish].
    + rewrite orb_false_r.
      destruct (item (take_idle (SetItemStatus s) rest r)); now split.
    + rewrite orb_false_r. now split.
    + rewrite orb_true_r. now split.
Qed.

Lemma exec_button_label (e : Env) (l : string) (sched : list Turn) (r : Run) :
  btn_convert (self r) = completed r ->
  lbl_status (self r) = (if completed r then "Extraction Complete" else l) ->
  btn_convert (self (exec e sched r)) = completed (exec e sched r) /\
  lbl_status (self (exec e sched r))
  = (if completed (exec e sched r) then "Extraction Complete" else l).
Proof.
  revert r. induction sched as [|t sched IH]; intros r Hb Hl; [now split|].
  cbn [exec fold_left]. fold (exec e sched (step e r t)).
  destruct (step_button_label e l r t Hb Hl). now apply IH.
Qed.

(** X8.  From the click to the moment [finish_conversion] runs the
    Extract button is insensitive, so that a click cannot start a second
    run, and the status line still shows what it showed before; from
    that moment on the button is sensitive and the line reads
    "Extraction Complete". *)
Theorem extract_disabled_until_finished (e : Env) (a : App) (sched : list Turn) :
  let r := exec e sched (on_convert_clicked e a) in
  btn_convert (self r) = completed r /\
  lbl_status (self r)
  = (if completed r then "Extraction Complete" else lbl_status a) /\
  click_convert e (self r)
  = (if completed r then Some (on_convert_clicked e (self r)) else None).
Proof.
  cbn zeta.
  destruct (exec_button_label e (lbl_status a) sched (on_convert_clicked e a))
    as [Hb Hl]; [reflexivity | reflexivity |].
  split; [exact Hb|]. split; [exact Hl|].
  unfold click_convert. rewrite Hb.
  now destruct (completed (exec e sched (on_convert_clicked e a))).
Qed.

(** ** The worker does not depend on the main loop *)

Lemma steps_left_exec (e : Env) (a0 : App) (sched : list Turn) (r : Run) :
  Inv e a0 r ->
  steps_left (List.length (model a0)) (pc (exec e sched r))
  = steps_left (List.length (model a0)) (pc r) - worker_turns_in sched.
Proof.
  revert r. induction sched as [|t sched IH]; intros r I.
  - cbn. lia.
  - cbn [exec fold_left]. fold (exec e sched (step e r t)).
    destruct t; cbn [step].
    + rewrite IH by now apply Inv_worker_step.
      rewrite (steps_left_worker e a0 r I).
      unfold worker_turns_in. cbn [filter is_worker_turn List.length]. lia.
    + rewrite IH by now apply Inv_main_step.
      rewrite main_step_pc. reflexivity.
Qed.

(** Where the worker stands is told by the number of statements it has
    left. *)
Lemma steps_left_pc (e : Env) (a0 : App) (r1 r2 : Run) :
  Inv e a0 r1 -> Inv e a0 r2 ->
  steps_left (List.length (model a0)) (pc r1)
  = steps_left (List.length (model a0)) (pc r2) ->
  pc r1 = pc r2.
Proof.
  intros I1 I2.
  pose proof (inv_pc _ _ _ I1) as H1. pose proof (inv_pc _ _ _ I2) as H2.
  unfold pc_ok in H1, H2.
  destruct (pc r1) as [i|i|i|i s|i| | | ], (pc r2) as [j|j|j|j s'|j| | | ];
    cbn [steps_left]; intros H;
    try contradiction; try reflexivity;
    try (exfalso; lia); try (f_equal; lia).
  destruct H1 as (Hi & _ & it & Hit & ->), H2 as (Hj & _ & it' & Hit' & ->).
  assert (i = j) as -> by lia. congruence.
Qed.

(** X9.  What the worker does is the same under all schedules: two
    schedules that give the worker the same number of turns leave it at
    the same statement, with the same commands run and the same
    callbacks handed to [GLib.idle_add], however the turns of the main
    loop are placed. *)
Theorem worker_ignores_main_loop (e : Env) (a : App) (s1 s2 : list Turn) :
  worker_turns_in s1 = worker_turns_in s2 ->
  let r1 := exec e s1 (on_convert_clicked e a) in
  let r2 := exec e s2 (on_convert_clicked e a) in
  pc r1 = pc r2 /\ calls r1 = calls r2 /\ emitted r1 = emitted r2.
Proof.
  intros H r1 r2.
  set (a0 := set_fraction 0%Q (set_btn_convert false a)).
  assert (I1 : Inv e a0 r1) by apply Inv_exec, Inv_on_convert_clicked.
  assert (I2 : Inv e a0 r2) by apply Inv_exec, Inv_on_convert_clicked.
  assert (Hpc : pc r1 = pc r2).
  { apply (steps_left_pc e a0 r1 r2 I1 I2). unfold r1, r2.
    rewrite !(steps_left_exec e a0) by apply Inv_on_convert_clicked.
    now rewrite H. }
  split; [exact Hpc|]. split.
  - now rewrite (inv_calls _ _ _ I1), (inv_calls _ _ _ I2), Hpc.
  - now rewrite (inv_emitted _ _ _ I1), (inv_emitted _ _ _ I2), Hpc.
Qed.

Lemma worker_ignores_main_loop_witness :
  let a := add_all ["/a/one.p7m"; "/a/two.p7m"] (do_activate healthy) in
  worker_turns_in one_behind = worker_turns_in (late 2) /\
  let r1 := exec healthy one_behind (on_convert_clicked healthy a) in
  let r2 := exec healthy (late 2) (on_convert_clicked healthy a) in
  pc r1 = pc r2 /\ calls r1 = calls r2 /\ emitted r1 = emitted r2.
Proof.
  split; [reflexivity|].
  apply (worker_ignores_main_loop healthy
           (add_all ["/a/one.p7m"; "/a/two.p7m"] (do_activate healthy))
           one_behind (late 2)).
  reflexivity.
Defined.

(** ** Runs without [openssl], and second runs *)

Lemma verdicts_no_openssl (e : Env) (a : App) (k : nat) (rows : list FileItem) :
  which_openssl e = None ->
  verdicts_from e a k rows = repeat Error (List.length rows).
Proof.
  intros H. revert k. induction rows as [|it rows IH]; intros k; cbn;
    [reflexivity|].
  rewrite IH. unfold verdict_at, outcome_at, subprocess_run.
  now rewrite H.
Qed.

Lemma rows_calls_program (e : Env) (a : App) :
  map program (rows_calls e a)
  = repeat (which_openssl e) (List.length (model a)).
Proof.
  unfold rows_calls. induction (model a) as [|it rows IH]; cbn;
    [reflexivity | now rewrite IH].
Qed.

Lemma firstn_program (o : option string) (k : nat) (l : list Cmd) :
  Forall (fun c => program c = o) l -> Forall (fun c => program c = o) (firstn k l).
Proof.
  intros H. revert k. induction H as [|c l Hc _ IH]; intros [|k]; cbn;
    constructor; auto.
Qed.

(** X10.  Without [openssl] a run still goes through the whole queue.
    Under every schedule each command it gives to [subprocess.run] has
    no program name, so no process is started; with prompt dispatch the
    run completes with every row marked [Error]. *)
Theorem no_openssl_every_row_error (e : Env) (a : App) :
  which_openssl e = None ->
  let n := List.length (model a) in
  let r := exec e (prompt n) (on_convert_clicked e a) in
  statuses r = repeat Error n /\
  completed r = true /\
  map program (calls r) = repeat None n /\
  forall sched,
    Forall (fun c => program c = None)
           (calls (exec e sched (on_convert_clicked e a))).
Proof.
  intros H n r.
  set (a0 := set_fraction 0%Q (set_btn_convert false a)).
  destruct (prompt_dispatch_settles e a) as (Hc & Hs & _).
  fold n in Hc, Hs. fold r in Hc, Hs.
  assert (Hall : Forall (fun c => program c = None) (rows_calls e a0)).
  { apply Forall_forall. intros c Hin. unfold rows_calls in Hin.
    apply in_map_iff in Hin as (it & <- & _). cbn. exact H. }
  split; [rewrite Hs; now apply verdicts_no_openssl|].
  split; [exact Hc|]. split.
  - assert (I : Inv e a0 r) by apply Inv_exec, Inv_on_convert_clicked.
    destruct (Inv_completed _ _ _ I Hc) as (_ & _ & Hpc).
    rewrite (inv_calls _ _ _ I), Hpc. cbn [called_count].
    rewrite firstn_all2 by (rewrite rows_calls_length; lia).
    rewrite rows_calls_program, H. reflexivity.
  - intros sched.
    assert (I : Inv e a0 (exec e sched (on_convert_clicked e a)))
      by apply Inv_exec, Inv_on_convert_clicked.
    rewrite (inv_calls _ _ _ I). now apply firstn_program.
Qed.

Lemma no_openssl_every_row_error_witness :
  let a := add_all ["/a/one.p7m"; "/a/two.p7m"; "/b/three.p7m"]
                   (do_activate no_openssl) in
  which_openssl no_openssl = None /\
  statuses (exec no_openssl (prompt 3) (on_convert_clicked no_openssl a))
  = [Error; Error; Error].
Proof.
  intros a. split; [reflexivity|].
  destruct (no_openssl_every_row_error no_openssl a eq_refl) as [H _].
  exact H.
Defined.

Lemma rows_calls_neutral (e : Env) (a a' : App) :
  custom_export_path a = custom_export_path a' ->
  map neutral (model a) = map neutral (model a') ->
  rows_calls e a = rows_calls e a'.
Proof.
  intros Hx. unfold rows_calls.
  generalize (model a') as m'. induction (model a) as [|it m IH];
    intros [|it' m'] H; try discriminate; [reflexivity|].
  cbn [map] in H.
  pose proof (f_equal (@List.hd FileItem (neutral it)) H) as Hn.
  pose proof (f_equal (@List.tl FileItem) H) as Hm.
  cbn [List.hd List.tl] in Hn, Hm. cbn [map].
  rewrite (IH m' Hm). f_equal. now apply cmd_neutral.
Qed.

(** X11.  A finished run leaves the Extract button sensitive, and a
    second run started from there converts every row again: whatever
    the rows' statuses, [Done] included, its commands are those of the
    first run, one per row in queue order. *)
Theorem rerun_converts_every_row_again (e : Env) (a : App) (s1 s2 : list Turn) :
  let r1 := exec e s1 (on_convert_clicked e a) in
  completed r1 = true ->
  let r2 := exec e s2 (on_convert_clicked e (self r1)) in
  pc r2 = Exited ->
  click_convert e (self r1) = Some (on_convert_clicked e (self r1)) /\
  calls r1 = rows_calls e a /\
  calls r2 = rows_calls e a.
Proof.
  intros r1 Hc r2 Hpc.
  set (a0 := set_fraction 0%Q (set_btn_convert false a)).
  set (a1 := set_fraction 0%Q (set_btn_convert false (self r1))).
  assert (I1 : Inv e a0 r1) by apply Inv_exec, Inv_on_convert_clicked.
  assert (I2 : Inv e a1 r2) by apply Inv_exec, Inv_on_convert_clicked.
  destruct (exec_button_label e (lbl_status a) s1 (on_convert_clicked e a))
    as [Hb _]; [reflexivity | reflexivity |].
  fold r1 in Hb.
  split; [unfold click_convert; now rewrite Hb, Hc|].
  destruct (Inv_completed _ _ _ I1 Hc) as (_ & _ & Hpc1).
  split.
  - rewrite (inv_calls _ _ _ I1), Hpc1. cbn [called_count].
    change (rows_calls e a0) with (rows_calls e a).
    change (List.length (model a0)) with (List.length (model a)).
    apply firstn_all2. rewrite rows_calls_length. lia.
  - rewrite (inv_calls _ _ _ I2), Hpc. cbn [called_count].
    rewrite firstn_all2 by (rewrite rows_calls_length; lia).
    apply rows_calls_neutral.
    + exact (inv_export _ _ _ I1).
    + exact (inv_rows _ _ _ I1).
Qed.

Lemma rerun_converts_every_row_again_witness :
  let a := add_all ["/a/one.p7m"; "/a/two.p7m"] (do_activate healthy) in
  let r1 := exec healthy (prompt 2) (on_convert_clicked healthy a) in
  completed r1 = true /\
  statuses r1 = [Done; Done] /\
  let r2 := exec healthy (prompt 2) (on_convert_clicked healthy (self r1)) in
  pc r2 = Exited /\
  calls r2 = rows_calls healthy a.
Proof.
  intros a r1. split; [reflexivity|]. split; [reflexivity|].
  intros r2. split; [reflexivity|].
  destruct (rerun_converts_every_row_again healthy a (prompt 2) (prompt 2)
              eq_refl eq_refl) as (_ & _ & H).
  exact H.
Defined.

(** ** Input and output paths *)

Lemma append_same_length_suffix (x y s t : string) :
  String.length s = String.length t ->
  (x ++ s)%string = (y ++ t)%string -> s = t.
Proof.
  intros Hl H.
  assert (Hxy : String.length x = String.length y).
  { apply (f_equal String.length) in H. rewrite !length_append in H. lia. }
  rewrite <- (drop_append_length x s), H, Hxy. apply drop_append_length.
Qed.

Lemma out_path_suffix (a : App) (it : FileItem) :
  exists pre, out_path a it = (pre ++ ".pdf")%string.
Proof.
  unfold out_path, base.
  destruct (join_suffix (dest a it)
              (fst (PosixPath.splitext (filename it)) ++ ".pdf")) as [pre ->].
  exists (pre ++ fst (PosixPath.splitext (filename it)))%string.
  symmetry. apply append_assoc.
Qed.

(** X12.  The output path of every row ends in [.pdf], whatever the
    row's name and the destination.  Hence for a row whose source path
    ends in [.p7m], letter case ignored, as every path found by
    discovery does, the output path differs from the source path: the
    command never names one file for reading and for writing. *)
Theorem output_differs_from_input (a : App) (it : FileItem) :
  Str.endswith ".pdf" (out_path a it) = true /\
  (is_p7m (full_path it) = true -> out_path a it <> full_path it).
Proof.
  destruct (out_path_suffix a it) as [pre Ho].
  split; [apply endswith_iff; now exists pre|].
  intros Hp Heq. unfold is_p7m in Hp. apply endswith_iff in Hp as [y Hy].
  rewrite <- Heq, Ho, lower_append in Hy. cbn [Str.lower] in Hy.
  apply append_same_length_suffix in Hy; [discriminate | reflexivity].
Qed.

Lemma output_differs_from_input_witness :
  let a := set_custom_export_path (Some "/out")
             (add_all ["/data/sub/B.P7M"; "/x/d.pdf"] built) in
  let it := pending_row 0 "/data/sub/B.P7M" in
  let other := pending_row 1 "/x/d.pdf" in
  is_p7m (full_path it) = true /\
  Str.endswith ".pdf" (out_path a it) = true /\
  out_path a it <> full_path it /\
  is_p7m (full_path other) = false /\
  Str.endswith ".pdf" (out_path a other) = true.
Proof.
  intros a it other.
  destruct (output_differs_from_input a it) as [Hpdf Hne].
  split; [reflexivity|]. split; [exact Hpdf|].
  split; [apply Hne; reflexivity|]. split; [reflexivity|].
  apply (output_differs_from_input a other).
Defined.

(** A file with another extension, queued through the file dialog, can
    be its own output. *)
Example pdf_from_dialog_names_itself :
  let a := on_open_multiple_finish (Some ["/x/d.pdf"]) built in
  map (out_path a) (model a) = map full_path (model a).
Proof. reflexivity. Qed.

Lemma append_cancel_l (s t u : string) :
  (s ++ t)%string = (s ++ u)%string -> t = u.
Proof.
  induction s as [|c s IH]; cbn; [trivial|]. intros [= H]. now apply IH.
Qed.

Lemma take_append_length (s t : string) :
  Str.take (String.length s) (s ++ t) = s.
Proof. induction s as [|c s IH]; cbn; [now destruct t | now rewrite IH]. Qed.

Lemma append_cancel_r (s t u : string) :
  (t ++ s)%string = (u ++ s)%string -> t = u.
Proof.
  intros H.
  assert (Hl : String.length t = String.length u).
  { apply (f_equal String.length) in H. rewrite !length_append in H. lia. }
  rewrite <- (take_append_length t s), H, Hl. apply take_append_length.
Qed.

(** X13.  With a destination folder set, the output path of a queued
    file depends on its name only, without the extension: two queued
    files get the same output path exactly when their base names have
    the same stem, whatever their directories.  Nothing in the run
    tells such rows apart, so the later one writes over the earlier. *)
Theorem override_outputs_collide (a : App) (d p q i j : string) (s t : Status) :
  custom_export_path a = Some d ->
  d <> "" ->
  let it1 := mkFileItem i (PosixPath.basename p) (PosixPath.dirname p) p s in
  let it2 := mkFileItem j (PosixPath.basename q) (PosixPath.dirname q) q t in
  out_path a it1 = out_path a it2 <->
  fst (PosixPath.splitext (PosixPath.basename p))
  = fst (PosixPath.splitext (PosixPath.basename q)).
Proof.
  intros Ha Hd it1 it2.
  assert (Hdest : forall it, dest a it = d).
  { intros it. unfold dest. rewrite Ha.
    destruct (String.eqb_spec d ""); [contradiction | reflexivity]. }
  unfold out_path, PosixPath.join. rewrite !Hdest.
  unfold base, it1, it2. cbn [filename].
  rewrite !stem_not_absolute by apply basename_no_sep.
  split.
  - intros H. apply append_cancel_r with (s := ".pdf").
    destruct (_ || _).
    + now apply append_cancel_l in H.
    + apply append_cancel_l in H. now apply append_cancel_l in H.
  - now intros ->.
Qed.

Lemma override_outputs_collide_witness :
  let a := set_custom_export_path (Some "/out")
             (add_all ["/a/report.p7m"; "/b/report.P7M"] built) in
  custom_export_path a = Some "/out" /\
  "/out" <> "" /\
  map (out_path a) (model a) = ["/out/report.pdf"; "/out/report.pdf"] /\
  (out_path a (pending_row 0 "/a/report.p7m")
   = out_path a (pending_row 1 "/b/report.P7M") <->
   fst (PosixPath.splitext (PosixPath.basename "/a/report.p7m"))
   = fst (PosixPath.splitext (PosixPath.basename "/b/report.P7M"))).
Proof.
  intros a. split; [reflexivity|]. split; [discriminate|].
  split; [reflexivity|].
  apply (override_outputs_collide a "/out" "/a/report.p7m" "/b/report.P7M"
           "1" "2" Pending Pending); [reflexivity | discriminate].
Defined.

(** ** The destination panel *)

Lemma truthy_some (p : string) : p <> "" -> truthy (Some p) = true.
Proof.
  intros H. cbn. now destruct (String.eqb_spec p "").
Qed.

Ltac panel_unfold :=
  unfold dest_step, on_select_folder_finish, set_active,
    on_dest_switch_toggled, on_pick_dest_clicked;
  cbn [core switch_dest btn_pick lbl_dest_sensitive lbl_dest_path dialog_open
       negb orb Bool.eqb custom_export_path set_custom_export_path].

Lemma dest_ok_step (w : Window) (ev : DestEvent) :
  dest_ok w -> named ev -> dest_ok (dest_step w ev).
Proof.
  destruct w as [c sw bp ls lp dg]. unfold dest_ok.
  cbn [core switch_dest btn_pick lbl_dest_sensitive lbl_dest_path dialog_open].
  intros (-> & -> & Hd & Hc) Hn.
  destruct (custom_export_path c) as [q|] eqn:E.
  - destruct Hc as (Hq & -> & ->).
    pose proof (truthy_some q Hq) as Ht.
    destruct ev as [ | |p| ], dg; panel_unfold; rewrite ?E, ?Ht;
      panel_unfold; rewrite ?E;
      cbn [named] in Hn; repeat split; auto; try discriminate.
  - destruct Hc as [-> Hs].
    destruct ev as [ | |p| ], dg, sw;
      try (specialize (Hd eq_refl); discriminate);
      try (specialize (Hs eq_refl); discriminate);
      panel_unfold; rewrite ?E;
      cbn [truthy negb]; panel_unfold; rewrite ?E;
      cbn [named] in Hn; repeat split; auto; try discriminate.
Qed.

Lemma dest_step_rows (w : Window) (ev : DestEvent) :
  file_queue (core (dest_step w ev)) = file_queue (core w) /\
  model (core (dest_step w ev)) = model (core w).
Proof.
  destruct w as [c sw bp ls lp dg].
  destruct ev as [ | |p| ]; cbn [dest_step dialog_open switch_dest btn_pick].
  - destruct dg; [now split|]. unfold set_active. cbn [switch_dest].
    rewrite Bool.eqb_negb2. unfold on_dest_switch_toggled.
    cbn [switch_dest core]. destruct sw; cbn [negb]; [now split|].
    destruct (truthy (custom_export_path c)); now split.
  - destruct (dg || negb bp); now split.
  - destruct dg; [|now split].
    unfold on_select_folder_finish, set_active. cbn [switch_dest core].
    destruct (Bool.eqb sw true); [now split|].
    unfold on_dest_switch_toggled. cbn [switch_dest core negb truthy
      custom_export_path set_custom_export_path].
    destruct (negb (negb (p =? "")%string)); now split.
  - destruct dg; [|now split].
    unfold on_select_folder_finish. cbn [core].
    destruct (negb (truthy (custom_export_path c))); [|now split].
    unfold set_active. cbn [switch_dest].
    destruct (Bool.eqb sw false); [now split|].
    unfold on_dest_switch_toggled. cbn [switch_dest negb core]. now split.
Qed.

(** X14.  Whatever the user does with the switch, the button and the
    folder dialog, the destination panel stays consistent and never
    touches the queue.  When no dialog is open, the switch is on exactly
    when a destination folder is set, and the label shows that folder;
    with the switch off no destination is set and the label reads
    "Same as source file".  So cancelling the first choice of a folder
    turns the switch off again, and cancelling a later one keeps the
    folder chosen before. *)
Theorem destination_panel_consistent (a : App) (evs : list DestEvent) :
  custom_export_path a = None ->
  Forall named evs ->
  let w := fold_left dest_step evs (opened a) in
  dest_ok w /\
  (dialog_open w = false ->
   switch_dest w = truthy (custom_export_path (core w))) /\
  file_queue (core w) = file_queue a /\
  model (core w) = model a.
Proof.
  intros Ha Hev. cbn zeta.
  assert (H0 : dest_ok (opened a)).
  { unfold dest_ok, opened. cbn. rewrite Ha.
    repeat split; auto; discriminate. }
  assert (Hq : file_queue (core (opened a)) = file_queue a) by reflexivity.
  assert (Hm : model (core (opened a)) = model a) by reflexivity.
  revert H0 Hq Hm. generalize (opened a) as w.
  induction Hev as [|ev evs Hn _ IH]; intros w Hok Hq Hm.
  - cbn [fold_left]. split; [exact Hok|]. split; [|now split].
    destruct Hok as (_ & _ & _ & Hc). intros Hd.
    destruct (custom_export_path (core w)) as [p|].
    + destruct Hc as (Hp & _ & ->). symmetry. now apply truthy_some.
    + destruct Hc as [_ Hs]. cbn.
      destruct (switch_dest w); [|reflexivity].
      specialize (Hs eq_refl). congruence.
  - cbn [fold_left]. destruct (dest_step_rows w ev) as [Eq Em].
    apply IH; [now apply dest_ok_step | congruence | congruence].
Qed.

Lemma destination_panel_consistent_witness :
  let evs := [ToggleSwitch; DialogCancelled; ToggleSwitch;
              FolderChosen "/out"; ClickPick; DialogCancelled] in
  custom_export_path built = None /\
  Forall named evs /\
  let w := fold_left dest_step evs (opened built) in
  dest_ok w /\
  (dialog_open w = false ->
   switch_dest w = truthy (custom_export_path (core w))) /\
  file_queue (core w) = file_queue built /\
  model (core w) = model built.
Proof.
  intros evs.
  assert (H : Forall named evs) by (repeat constructor; discriminate).
  split; [reflexivity|]. split; [exact H|].
  apply (destination_panel_consistent built evs eq_refl H).
Defined.

Example destination_panel_trace :
  let w1 := fold_left dest_step [ToggleSwitch] (opened built) in
  let w2 := fold_left dest_step [ToggleSwitch; DialogCancelled] (opened built) in
  let w3 := fold_left dest_step [ToggleSwitch; FolderChosen "/out"] (opened built) in
  let w4 := fold_left dest_step
              [ToggleSwitch; FolderChosen "/out"; ClickPick; DialogCancelled]
              (opened built) in
  let w5 := fold_left dest_step
              [ToggleSwitch; FolderChosen "/out"; ToggleSwitch] (opened built) in
  (switch_dest w1, dialog_open w1, custom_export_path (core w1))
  = (true, true, None) /\
  (switch_dest w2, dialog_open w2, custom_export_path (core w2))
  = (false, false, None) /\
  (switch_dest w3, lbl_dest_path w3, custom_export_path (core w3))
  = (true, "/out", Some "/out") /\
  (switch_dest w4, lbl_dest_path w4, custom_export_path (core w4))
  = (true, "/out", Some "/out") /\
  (switch_dest w5, lbl_dest_path w5, custom_export_path (core w5))
  = (false, "Same as source file", None).
Proof. repeat split. Qed.

(** ** The languages asked of gettext *)

(** [split_head c s] is [s] up to its first [c]: what follows it in [s]
    is nothing, or begins with [c]. *)
Lemma split_head_prefix (c : ascii) (s : string) :
  exists rest, s = (split_head c s ++ rest)%string /\
               (rest = "" \/ exists r, rest = String c r).
Proof.
  induction s as [|a s (rest & IH & Hr)].
  - exists "". split; [reflexivity | now left].
  - cbn [split_head]. destruct (Ascii.eqb_spec a c) as [->|Hne].
    + exists (String c s). split; [reflexivity | right; now exists s].
    + exists rest. split; [cbn; now rewrite <- IH | exact Hr].
Qed.

Lemma split_head_none (c : ascii) (s : string) :
  Str.rfind c (split_head c s) = None.
Proof.
  induction s as [|a s IH]; [reflexivity|].
  cbn [split_head]. destruct (Ascii.eqb a c) eqn:E; [reflexivity|].
  cbn [Str.rfind]. now rewrite IH, E.
Qed.

(** X15.  The list of languages always ends with [en].  When none of
    [LC_ALL], [LC_MESSAGES] and [LANG] has a value that is not empty the
    list is [en] alone.  Otherwise it has three entries: the first value
    that is not empty, in that order of the variables, cut before its
    first dot; that entry cut before its first underscore; and [en].
    A variable that is set to the empty string counts as not set. *)
Theorem languages_fallback (lc_all lc_messages lang : option string) :
  last (languages lc_all lc_messages lang) "" = "en" /\
  match lang_code lc_all lc_messages lang with
  | Some c =>
      if String.eqb c "" then languages lc_all lc_messages lang = ["en"]
      else
        exists l l2 rest rest2,
          languages lc_all lc_messages lang = [l; l2; "en"] /\
          c = (l ++ rest)%string /\
          (rest = "" \/ exists r, rest = String "." r) /\
          Str.rfind "." l = None /\
          l = (l2 ++ rest2)%string /\
          (rest2 = "" \/ exists r, rest2 = String "_" r) /\
          Str.rfind "_" l2 = None
  | None => languages lc_all lc_messages lang = ["en"]
  end /\
  lang_code (Some "") lc_messages lang = lang_code None lc_messages lang /\
  lang_code lc_all (Some "") lang = lang_code lc_all None lang /\
  languages lc_all lc_messages (Some "") = languages lc_all lc_messages None.
Proof.
  split; [|split; [|split; [|split]]].
  - unfold languages. destruct (lang_code lc_all lc_messages lang) as [c|];
      [|reflexivity].
    destruct (negb (c =? "")%string); reflexivity.
  - unfold languages. destruct (lang_code lc_all lc_messages lang) as [c|];
      [|reflexivity].
    destruct (c =? "")%string; cbn [negb]; [reflexivity|].
    destruct (split_head_prefix "." c) as (rest & Hc & Hr).
    destruct (split_head_prefix "_" (split_head "." c)) as (rest2 & Hl & Hr2).
    exists (split_head "." c), (split_head "_" (split_head "." c)), rest, rest2.
    split; [reflexivity|]. split; [exact Hc|]. split; [exact Hr|].
    split; [apply split_head_none|]. split; [exact Hl|]. split; [exact Hr2|].
    apply split_head_none.
  - reflexivity.
  - unfold lang_code. destruct (truthy lc_all); reflexivity.
  - unfold languages, lang_code.
    destruct (truthy lc_all); [reflexivity|].
    destruct (truthy lc_messages); reflexivity.
Qed.

Example languages_examples :
  languages None None (Some "it_IT.UTF-8") = ["it_IT"; "it"; "en"] /\
  languages (Some "") (Some "de_AT") (Some "it_IT.UTF-8") = ["de_AT"; "de"; "en"] /\
  languages (Some "C") None None = ["C"; "C"; "en"] /\
  languages None None None = ["en"] /\
  languages None None (Some ".UTF-8") = [""; ""; "en"].
Proof. repeat split. Qed.
